(** * School textbook chatbot: guardrails and corrective retrieval pipeline

    A shallow embedding of [school_guardrails.py] (the keyword screen, the
    PII masking and the safety counters) and of [school_rag.py] (context
    grading and the [query] pipeline with its retrieval ladder), followed by
    the properties of the natural-language specification.

    Conventions of the embedding.
    - A Python [str] is a [text]: a list of characters.  Character classes,
      [str.lower], [str.upper], [str.strip] and the regular-expression
      classes act on the ASCII range as Python does; a character above 127
      is a byte of a UTF-8 sequence and belongs to no class.
    - Python floats are binary64 primitive floats.
    - The vector index and the language model are outside the program: a
      call to either is a node of an interaction tree, answered by a
      [World]; either call may raise.
    - [json.loads] is a library function and is a parameter of the
      development; so are the reader of PDF files, the text splitter and
      the embedding of the loading methods. *)

From Stdlib Require Import String Ascii DecimalString List Bool Arith ZArith Lia.
From Stdlib Require Import Floats.
Import ListNotations.
Open Scope string_scope.
Open Scope list_scope.
Open Scope nat_scope.

Set Warnings "-inexact-float".

(* ================================================================= *)
(** ** Text *)

Module Text.

Definition text := list ascii.

(** A string literal as a text. *)
Definition str (s : string) : text := list_ascii_of_string s.

Definition ascii_eqb (a b : ascii) : bool := Ascii.eqb a b.

Definition code (c : ascii) : nat := nat_of_ascii c.

Definition in_range (lo hi : nat) (c : ascii) : bool :=
  (lo <=? code c) && (code c <=? hi).

Definition is_upper (c : ascii) : bool := in_range 65 90 c.
Definition is_lower (c : ascii) : bool := in_range 97 122 c.
Definition is_digit (c : ascii) : bool := in_range 48 57 c.
Definition is_alpha (c : ascii) : bool := is_upper c || is_lower c.

(** [str.isspace] on the ASCII range: tab to carriage return, the four
    separators 28..31 and the space. *)
Definition is_space (c : ascii) : bool :=
  in_range 9 13 c || in_range 28 32 c.

(** [\w] on the ASCII range. *)
Definition is_word (c : ascii) : bool :=
  is_alpha c || is_digit c || ascii_eqb c "_".

Definition lower_char (c : ascii) : ascii :=
  if is_upper c then ascii_of_nat (code c + 32) else c.

Definition upper_char (c : ascii) : ascii :=
  if is_lower c then ascii_of_nat (code c - 32) else c.

(** [s.lower()] and [s.upper()]. *)
Definition lower (s : text) : text := map lower_char s.
Definition upper (s : text) : text := map upper_char s.

(** [s.startswith(p)]. *)
Fixpoint startswith (s p : text) : bool :=
  match p, s with
  | [], _ => true
  | _ :: _, [] => false
  | a :: p', b :: s' => ascii_eqb a b && startswith s' p'
  end.

(** [needle in s]. *)
Fixpoint contains (s needle : text) : bool :=
  startswith s needle ||
  match s with
  | [] => false
  | _ :: s' => contains s' needle
  end.

(** The substring relation that [contains] decides. *)
Definition occurs (needle s : text) : Prop :=
  exists pre suf, s = pre ++ needle ++ suf.

(** [s.replace(old, new)] for a non-empty [old]: a left-to-right scan that
    replaces every non-overlapping occurrence.  [skip] counts the characters
    of the occurrence just replaced that are still to be passed over. *)
Fixpoint replace_scan (old new s : text) (skip : nat) : text :=
  match s with
  | [] => []
  | c :: s' =>
      match skip with
      | S k => replace_scan old new s' k
      | O =>
          if startswith s old
          then new ++ replace_scan old new s' (length old - 1)
          else c :: replace_scan old new s' 0
      end
  end.

(** [s.replace(old, new)]; with an empty [old] Python inserts [new] before
    every character and at the end. *)
Definition replace (s old new : text) : text :=
  match old with
  | [] => new ++ flat_map (fun c => c :: new) s
  | _ :: _ => replace_scan old new s 0
  end.

(** [s.lstrip()], [s.rstrip()] and [s.strip()]. *)
Fixpoint lstrip (s : text) : text :=
  match s with
  | c :: s' => if is_space c then lstrip s' else s
  | [] => []
  end.

Definition rstrip (s : text) : text := rev (lstrip (rev s)).
Definition strip (s : text) : text := rstrip (lstrip s).

(** [sep.join(parts)]. *)
Fixpoint join (sep : text) (parts : list text) : text :=
  match parts with
  | [] => []
  | [p] => p
  | p :: rest => p ++ sep ++ join sep rest
  end.

(** The part of [s] after the first occurrence of [sep], if any. *)
Fixpoint after_first (sep s : text) : option text :=
  if startswith s sep then Some (skipn (length sep) s)
  else match s with
       | [] => None
       | _ :: s' => after_first sep s'
       end.

(** The part of [s] before the first occurrence of [sep] (all of [s] when
    there is none). *)
Fixpoint before_first (sep s : text) : text :=
  if startswith s sep then []
  else match s with
       | [] => []
       | c :: s' => c :: before_first sep s'
       end.

(** The double-quote character, for the prompt templates. *)
Definition dquote : text := [ascii_of_nat 34].

(** The line feed. *)
Definition nl : text := [ascii_of_nat 10].

End Text.
Import Text.

(* ================================================================= *)
(** ** Regular expressions of the PII patterns

    The fragment of Python's [re] that the four PII patterns use, matched
    the way [re] does it: atoms in sequence, greedy repetition of a
    character class with backtracking, alternatives tried in order, under
    [re.IGNORECASE]. *)

Module Regex.

Inductive atom : Type :=
| Bnd                                                       (* \b *)
| Rep (cls : ascii -> bool) (lo : nat) (hi : option nat)    (* cls{lo,hi}, greedy *)
| Alt (alts : list text).                                   (* (?:a|b|...) *)

Definition pattern := list atom.

(** A class under [re.IGNORECASE]: a character matches when one of its case
    variants is in the class. *)
Definition icase (cls : ascii -> bool) (c : ascii) : bool :=
  cls c || cls (lower_char c) || cls (upper_char c).

Definition is_word_opt (o : option ascii) : bool :=
  match o with
  | Some c => is_word c
  | None => false
  end.

(** [\b] between the character before the position and the one at it. *)
Definition at_boundary (prev : option ascii) (s : text) : bool :=
  negb (Bool.eqb (is_word_opt prev) (is_word_opt (hd_error s))).

Definition below (hi : option nat) (n : nat) : bool :=
  match hi with
  | Some h => n <? h
  | None => true
  end.

(** The character before the position reached after reading [m]. *)
Definition last_of (prev : option ascii) (m : text) : option ascii :=
  match rev m with
  | c :: _ => Some c
  | [] => prev
  end.

(** Greedy repetition: read one more character of the class when allowed,
    and fall back to the continuation [k] when the rest fails that way.
    [n] characters of the repetition have been read. *)
Fixpoint greedy (cls : ascii -> bool) (lo : nat) (hi : option nat)
    (k : option ascii -> text -> option text)
    (n : nat) (prev : option ascii) (s : text) {struct s} : option text :=
  let stop := if lo <=? n then k prev s else None in
  match s with
  | c :: s' =>
      if below hi n && icase cls c then
        match greedy cls lo hi k (S n) (Some c) s' with
        | Some m => Some (c :: m)
        | None => stop
        end
      else stop
  | [] => stop
  end.

(** A literal under [re.IGNORECASE] at the head of [s]. *)
Definition istartswith (s lit : text) : bool :=
  startswith (lower (firstn (length lit) s)) (lower lit)
  && (length lit <=? length s).

(** The alternatives in order: the first one after which the rest of the
    pattern matches. *)
Fixpoint first_alt (alts : list text)
    (k : option ascii -> text -> option text)
    (prev : option ascii) (s : text) : option text :=
  match alts with
  | [] => None
  | lit :: alts' =>
      let here := firstn (length lit) s in
      if istartswith s lit then
        match k (last_of prev here) (skipn (length lit) s) with
        | Some m => Some (here ++ m)
        | None => first_alt alts' k prev s
        end
      else first_alt alts' k prev s
  end.

(** [match_at p prev s]: the text matched by [p] at the head of [s], where
    [prev] is the character before it. *)
Fixpoint match_at (p : pattern) (prev : option ascii) (s : text)
    {struct p} : option text :=
  match p with
  | [] => Some []
  | Bnd :: rest =>
      if at_boundary prev s then match_at rest prev s else None
  | Rep cls lo hi :: rest => greedy cls lo hi (match_at rest) 0 prev s
  | Alt alts :: rest => first_alt alts (match_at rest) prev s
  end.

(** [re.finditer]: the matches from left to right, each search resuming
    where the previous match ended.  [skip] counts the characters of the
    last match still to be passed over. *)
Fixpoint scan (p : pattern) (prev : option ascii) (s : text) (skip : nat)
    : list text :=
  match s with
  | [] =>
      match skip, match_at p prev [] with
      | O, Some m => [m]
      | _, _ => []
      end
  | c :: s' =>
      match skip with
      | S k => scan p (Some c) s' k
      | O =>
          match match_at p prev s with
          | Some m => m :: scan p (Some c) s' (length m - 1)
          | None => scan p (Some c) s' 0
          end
      end
  end.

(** [match.group()] of every match of [re.finditer(p, s, re.IGNORECASE)]. *)
Definition finditer (p : pattern) (s : text) : list text := scan p None s 0.

(** Character classes of the patterns. *)
Definition one (c : ascii) : ascii -> bool := ascii_eqb c.
Definition any_of (set : string) (c : ascii) : bool :=
  existsb (ascii_eqb c) (str set).
Definition alnum (c : ascii) : bool := is_alpha c || is_digit c.

Definition lit (c : ascii) : atom := Rep (one c) 1 (Some 1).
Definition exactly (cls : ascii -> bool) (n : nat) : atom := Rep cls n (Some n).
Definition plus (cls : ascii -> bool) : atom := Rep cls 1 None.
Definition at_least (cls : ascii -> bool) (n : nat) : atom := Rep cls n None.
Definition opt (cls : ascii -> bool) : atom := Rep cls 0 (Some 1).

(** [\b[A-Za-z0-9._%+-]+@[A-Za-z0-9.-]+\.[A-Z|a-z]{2,}\b] *)
Definition email_re : pattern :=
  [ Bnd;
    plus (fun c => alnum c || any_of "._%+-" c);
    lit "@";
    plus (fun c => alnum c || any_of ".-" c);
    lit ".";
    at_least (fun c => is_upper c || one "|" c || is_lower c) 2;
    Bnd ].

(** [\b\d{3}[-.]?\d{3}[-.]?\d{4}\b] *)
Definition phone_re : pattern :=
  [ Bnd;
    exactly is_digit 3; opt (any_of "-.");
    exactly is_digit 3; opt (any_of "-.");
    exactly is_digit 4;
    Bnd ].

(** [\d+\s+[\w\s]+(?:street|st|avenue|ave|road|rd|lane|ln|drive|dr)\b] *)
Definition address_re : pattern :=
  [ plus is_digit;
    plus is_space;
    plus (fun c => is_word c || is_space c);
    Alt (map str ["street"; "st"; "avenue"; "ave"; "road"; "rd";
                  "lane"; "ln"; "drive"; "dr"]);
    Bnd ].

(** [\b\d{4}\s?\d{4}\s?\d{4}\b] *)
Definition aadhaar_re : pattern :=
  [ Bnd;
    exactly is_digit 4; opt is_space;
    exactly is_digit 4; opt is_space;
    exactly is_digit 4;
    Bnd ].

End Regex.

(* ================================================================= *)
(** ** school_guardrails.py *)

Module Guardrails.
Import Regex.

(** [GuardrailResult]; the dataclass defaults are the empty string. *)
Record GuardrailResult : Type := mkGuardrailResult {
  is_safe : bool;
  reason : text;
  sanitized_text : text;
  blocked_category : text
}.

(** The keys of the [metrics] dictionary.  The dictionary is created with
    these ten keys and no key is ever added or removed, so it is a total
    map from them. *)
Inductive key : Type :=
| total_input_checks | total_output_checks
| blocked_sexual | blocked_violence | blocked_drugs
| blocked_bullying | blocked_cheating | blocked_injection
| pii_detected | safe_queries.

Definition key_eqb (a b : key) : bool :=
  match a, b with
  | total_input_checks, total_input_checks
  | total_output_checks, total_output_checks
  | blocked_sexual, blocked_sexual
  | blocked_violence, blocked_violence
  | blocked_drugs, blocked_drugs
  | blocked_bullying, blocked_bullying
  | blocked_cheating, blocked_cheating
  | blocked_injection, blocked_injection
  | pii_detected, pii_detected
  | safe_queries, safe_queries => true
  | _, _ => false
  end.

Definition Metrics := key -> nat.

(** [self.metrics] after [__init__]. *)
Definition initial_metrics : Metrics := fun _ => 0.

(** [metrics[k] += n]. *)
Definition add_to (k : key) (n : nat) (m : Metrics) : Metrics :=
  fun k' => if key_eqb k k' then m k' + n else m k'.

Definition sexual_keywords : list text := map str
  [ "sex"; "sexual"; "porn"; "xxx"; "nude"; "naked"; "adult content";
    "erotic"; "seductive"; "intimate"; "kiss"; "boyfriend"; "girlfriend";
    "dating"; "romance"; "love affair"; "sexy"; "hot girl"; "hot boy";
    "adult"; "mature content"; "nsfw"; "18+"; "explicit" ].

Definition violence_keywords : list text := map str
  [ "kill"; "murder"; "death"; "die"; "blood"; "gore"; "violent";
    "fight"; "attack"; "weapon"; "gun"; "knife"; "bomb"; "terrorist";
    "shoot"; "stab"; "hurt"; "harm"; "beat"; "punch"; "assault";
    "suicide"; "self-harm"; "cut myself"; "end my life" ].

Definition drugs_keywords : list text := map str
  [ "drug"; "drugs"; "alcohol"; "beer"; "wine"; "whiskey"; "vodka";
    "smoke"; "smoking"; "cigarette"; "weed"; "marijuana"; "cocaine";
    "heroin"; "addiction"; "drunk"; "intoxicated"; "high on" ].

Definition bullying_keywords : list text := map str
  [ "stupid"; "idiot"; "dumb"; "loser"; "ugly"; "fat"; "hate you";
    "kill yourself"; "nobody likes you"; "worthless"; "useless";
    "retard"; "freak"; "weirdo"; "disgusting" ].

Definition cheating_keywords : list text := map str
  [ "hack"; "cheat"; "steal"; "copy answers"; "exam answers";
    "test answers"; "homework answers"; "bypass"; "break rules";
    "skip school"; "bunk class"; "forge"; "fake" ].

Definition injection_patterns : list text := map str
  [ "ignore all previous";
    "ignore previous instructions";
    "disregard all";
    "forget your instructions";
    "you are now";
    "new instructions";
    "system prompt";
    "reveal your prompt";
    "bypass safety";
    "jailbreak" ].

(** [self.pii_patterns], in the insertion order of the dictionary. *)
Definition pii_patterns : list (text * pattern) :=
  [ (str "email", email_re);
    (str "phone", phone_re);
    (str "address", address_re);
    (str "aadhaar", aadhaar_re) ].

(** The loop of [_check_keywords] over the lower-cased text. *)
Fixpoint first_keyword (text_lower : text) (keywords : list text)
    : bool * text :=
  match keywords with
  | [] => (false, [])
  | keyword :: rest =>
      if contains text_lower keyword then (true, keyword)
      else first_keyword text_lower rest
  end.

Definition _check_keywords (t : text) (keywords : list text) : bool * text :=
  first_keyword (lower t) keywords.

Definition _check_prompt_injection (t : text) : bool * text :=
  first_keyword (lower t) injection_patterns.

(** The token [f"[{pii_type.upper()}_PROTECTED]"]. *)
Definition placeholder (pii_type : text) : text :=
  str "[" ++ upper pii_type ++ str "_PROTECTED]".

(** An entry of [detected_pii]: its type and its value. *)
Definition pii_item : Type := text * text.

(** The inner loop of [_mask_pii] over the matches of one pattern. *)
Definition mask_matches (pii_type : text) (matches : list text)
    (acc : text * list pii_item) : text * list pii_item :=
  fold_left
    (fun '(masked_text, detected_pii) value =>
       (replace masked_text value (placeholder pii_type),
        detected_pii ++ [(pii_type, value)]))
    matches acc.

(** The outer loop of [_mask_pii] over the given patterns; the matches are
    always searched in the original [t]. *)
Definition mask_with (patterns : list (text * pattern)) (t : text)
    (acc : text * list pii_item) : text * list pii_item :=
  fold_left
    (fun acc '(pii_type, p) => mask_matches pii_type (finditer p t) acc)
    patterns acc.

Definition _mask_pii (t : text) : text * list pii_item :=
  mask_with pii_patterns t (t, []).

Definition blocked (why category : string) : GuardrailResult :=
  mkGuardrailResult false (str why) [] (str category).

(** [validate_input], with the metrics dictionary passed through. *)
Definition validate_input (m : Metrics) (user_input : text)
    : Metrics * GuardrailResult :=
  let m := add_to total_input_checks 1 m in
  if fst (_check_prompt_injection user_input) then
    (add_to blocked_injection 1 m,
     blocked "🚫 Invalid request detected. Please ask a proper question."
             "injection")
  else if fst (_check_keywords user_input sexual_keywords) then
    (add_to blocked_sexual 1 m,
     blocked "🚫 This question is not appropriate for students. Please ask questions related to your studies."
             "sexual")
  else if fst (_check_keywords user_input violence_keywords) then
    (add_to blocked_violence 1 m,
     blocked "🚫 Questions about violence are not allowed. Please ask educational questions."
             "violence")
  else if fst (_check_keywords user_input drugs_keywords) then
    (add_to blocked_drugs 1 m,
     blocked "🚫 This topic is not appropriate for students. Please ask study-related questions."
             "drugs")
  else if fst (_check_keywords user_input bullying_keywords) then
    (add_to blocked_bullying 1 m,
     blocked "🚫 Please be respectful! Unkind words are not allowed. Ask nicely! 😊"
             "bullying")
  else if fst (_check_keywords user_input cheating_keywords) then
    (add_to blocked_cheating 1 m,
     blocked "🚫 I can't help with cheating. I'm here to help you learn! 📚"
             "cheating")
  else
    let '(sanitized_input, pii_found) := _mask_pii user_input in
    let m := match pii_found with
             | [] => m
             | _ :: _ => add_to pii_detected (length pii_found) m
             end in
    (add_to safe_queries 1 m,
     mkGuardrailResult true (str "✅ Query is safe") sanitized_input []).

(** [validate_output], with the metrics dictionary passed through. *)
Definition validate_output (m : Metrics) (llm_output : text)
    : Metrics * GuardrailResult :=
  let m := add_to total_output_checks 1 m in
  if fst (_check_keywords llm_output sexual_keywords) then
    (m, blocked "Response contained inappropriate content" "sexual")
  else if fst (_check_keywords llm_output violence_keywords) then
    (m, blocked "Response contained violent content" "violence")
  else if fst (_check_keywords llm_output drugs_keywords) then
    (m, blocked "Response contained inappropriate content" "drugs")
  else if fst (_check_keywords llm_output bullying_keywords) then
    (m, blocked "Response contained unkind language" "bullying")
  else
    (m, mkGuardrailResult true (str "✅ Output is safe")
          (fst (_mask_pii llm_output)) []).

(** [get_metrics]. *)
Definition get_metrics (m : Metrics) : Metrics := m.

End Guardrails.

(* ================================================================= *)
(** ** Interaction with the vector index and the language model *)

Module Interaction.

(** What a Python call comes back with. *)
Inductive outcome (A : Type) : Type :=
| Returned (a : A)
| Raised (e : text).

Arguments Returned {A} a.
Arguments Raised {A} e.

(** A [Document]: its text and the [page] entry of its metadata, when it
    has one. *)
Record Document : Type := mkDocument {
  page_content : text;
  page : option nat
}.

Inductive RetrievalLevel : Type := PRIMARY | SECONDARY | TERTIARY | FALLBACK.

(** The steps of [query] that a run records: the calls of the methods of
    [SchoolTextbookRAG] and the generation step. *)
Inductive Step : Type :=
| retrieve (level : RetrievalLevel)   (* _retrieve_primary, _secondary, _tertiary *)
| evaluate_context                    (* _evaluate_context *)
| refine_query                        (* _refine_query *)
| generate_response.                  (* step 5 of query *)

(** A program that calls the index ([vectorstore.similarity_search]) and the
    model ([llm.invoke], of which the program reads [.content]). *)
Inductive Prog (A : Type) : Type :=
| Ret (a : A)
| Enter (m : Step) (next : Prog A)
| Search (q : text) (k : nat) (next : outcome (list Document) -> Prog A)
| Invoke (prompt : text) (next : outcome text -> Prog A).

Arguments Ret {A} a.
Arguments Enter {A} m next.
Arguments Search {A} q k next.
Arguments Invoke {A} prompt next.

Fixpoint pbind {A B : Type} (p : Prog A) (f : A -> Prog B) : Prog B :=
  match p with
  | Ret a => f a
  | Enter m next => Enter m (pbind next f)
  | Search q k next => Search q k (fun r => pbind (next r) f)
  | Invoke prompt next => Invoke prompt (fun r => pbind (next r) f)
  end.

(** What a run leaves behind: the steps entered and the external calls
    with their results, in order. *)
Inductive Event : Type :=
| EvEnter (m : Step)
| EvSearch (q : text) (k : nat) (r : outcome (list Document))
| EvInvoke (prompt : text) (r : outcome text).

(** The two services.  An answer may depend on everything that happened
    before, so a service may answer the same request differently each
    time. *)
Record World : Type := mkWorld {
  similarity_search : list Event -> text -> nat -> outcome (list Document);
  llm_invoke : list Event -> text -> outcome text
}.

(** [run w past p]: the events of [p] in the world [w] after the events
    [past], and its result. *)
Fixpoint run {A : Type} (w : World) (past : list Event) (p : Prog A)
    : list Event * A :=
  match p with
  | Ret a => ([], a)
  | Enter m next =>
      let '(tr, a) := run w (past ++ [EvEnter m]) next in
      (EvEnter m :: tr, a)
  | Search q k next =>
      let r := similarity_search w past q k in
      let '(tr, a) := run w (past ++ [EvSearch q k r]) (next r) in
      (EvSearch q k r :: tr, a)
  | Invoke prompt next =>
      let r := llm_invoke w past prompt in
      let '(tr, a) := run w (past ++ [EvInvoke prompt r]) (next r) in
      (EvInvoke prompt r :: tr, a)
  end.

Definition is_search (e : Event) : bool :=
  match e with EvSearch _ _ _ => true | _ => false end.

Definition is_invoke (e : Event) : bool :=
  match e with EvInvoke _ _ => true | _ => false end.

(** The number of calls to the index and to the model in a trace. *)
Definition search_calls (tr : list Event) : nat := length (filter is_search tr).
Definition llm_calls (tr : list Event) : nat := length (filter is_invoke tr).

(** The steps entered, in order. *)
Fixpoint steps (tr : list Event) : list Step :=
  match tr with
  | [] => []
  | EvEnter m :: tr' => m :: steps tr'
  | _ :: tr' => steps tr'
  end.

(** The retrieval levels attempted, in order. *)
Fixpoint levels (ms : list Step) : list RetrievalLevel :=
  match ms with
  | [] => []
  | retrieve level :: ms' => level :: levels ms'
  | _ :: ms' => levels ms'
  end.

(** [wp w past p Q]: the trace and the result of [p], run in [w] after
    [past], satisfy [Q]. *)
Definition wp {A : Type} (w : World) (past : list Event) (p : Prog A)
    (Q : list Event -> A -> Prop) : Prop :=
  Q (fst (run w past p)) (snd (run w past p)).

End Interaction.

(* ================================================================= *)
(** ** school_rag.py *)

Module Rag.
Import Guardrails Interaction.

Inductive QualityLevel : Type := EXCELLENT | GOOD | FAIR | POOR.

(** A value of the parsed grading reply: a number (an [int], a [float] or
    a [bool], by its value), a string, or anything else. *)
Inductive jvalue : Type :=
| JNum (x : float)
| JStr (s : text)
| JOther.

(** What [json.loads] returns: a dictionary, or a value that is none. *)
Inductive json : Type :=
| JObject (fields : list (text * jvalue))
| JNotObject.

Record ContextEvaluation : Type := mkContextEvaluation {
  relevance_score : jvalue;
  completeness_score : jvalue;
  clarity_score : jvalue;
  quality_level : QualityLevel;
  needs_correction : bool;
  reasoning : jvalue
}.

Record RAGResponse : Type := mkRAGResponse {
  answer : text;
  context_quality : QualityLevel;
  retrieval_level : RetrievalLevel;
  sources : list text;
  was_corrected : bool;
  guardrail_passed : bool;
  confidence : text
}.

Definition unlines (ls : list text) : text := join nl ls.

Definition text_eq_dec : forall a b : text, {a = b} + {a <> b} :=
  list_eq_dec ascii_dec.

(** [self.system_prompt]. *)
Definition system_prompt : text := unlines
  [ str "You are a friendly and helpful study assistant for 6th standard students.";
    [];
    str "Your role:";
    str "- Help students understand their English textbook lessons";
    str "- Explain concepts in simple, easy-to-understand language";
    str "- Be encouraging and supportive";
    str "- Use examples that students can relate to";
    str "- Keep responses brief but informative";
    [];
    str "Guidelines:";
    str "- Use simple words suitable for 6th grade students";
    str "- Be friendly and encouraging 😊";
    str "- If you don't know something, say " ++ dquote
      ++ str "I'm not sure about that, but let's look at what we do know!"
      ++ dquote;
    str "- Always relate answers to the textbook content when possible";
    [];
    str "Remember: You're talking to young students, so be patient and kind!" ].

(** [evaluation_prompt.format(query=..., context=...)]. *)
Definition evaluation_prompt (query context : text) : text := unlines
  [ str "Evaluate how well this context can answer the student's question.";
    [];
    str "STUDENT QUESTION: " ++ query;
    [];
    str "RETRIEVED CONTEXT:";
    context;
    [];
    str "Evaluate on 3 criteria (score 0.0 to 1.0):";
    [];
    str "1. RELEVANCE: How relevant is the context to the question?";
    str "2. COMPLETENESS: Does the context have enough information?";
    str "3. CLARITY: Is the context clear and understandable?";
    [];
    str "Respond in JSON:";
    str "{";
    str "    " ++ dquote ++ str "relevance_score" ++ dquote ++ str ": <0.0-1.0>,";
    str "    " ++ dquote ++ str "completeness_score" ++ dquote ++ str ": <0.0-1.0>,";
    str "    " ++ dquote ++ str "clarity_score" ++ dquote ++ str ": <0.0-1.0>,";
    str "    " ++ dquote ++ str "reasoning" ++ dquote ++ str ": " ++ dquote
      ++ str "<brief explanation>" ++ dquote;
    str "}";
    [];
    str "JSON:" ].

(** [refine_prompt.format(query=..., reasoning=...)]. *)
Definition refine_prompt (query reasoning : text) : text := unlines
  [ str "The student's question didn't find good answers. Improve the search query.";
    [];
    str "ORIGINAL QUESTION: " ++ query;
    [];
    str "PROBLEM: " ++ reasoning;
    [];
    str "Create a better search query that:";
    str "- Uses keywords from the English textbook";
    str "- Is more specific";
    str "- Might find better matching content";
    [];
    str "Return ONLY the improved query (no explanation):";
    [];
    str "IMPROVED QUERY:" ].

(** The f-string [expand_prompt] of [_retrieve_tertiary]. *)
Definition expand_prompt (query : text) : text := unlines
  [ str "Expand this student question with related educational terms:";
    [];
    str "Question: " ++ query;
    [];
    str "Add synonyms and related concepts for better textbook search.";
    str "Return only the expanded query:" ].

(** [generation_prompt.format(system_prompt=..., context=..., query=...)]. *)
Definition generation_prompt (context query : text) : text := unlines
  [ system_prompt;
    [];
    str "Based on the textbook content below, answer the student's question.";
    [];
    str "TEXTBOOK CONTENT:";
    context;
    [];
    str "STUDENT QUESTION: " ++ query;
    [];
    str "Remember:";
    str "- Use simple language for 6th grade students";
    str "- Be friendly and encouraging";
    str "- If the textbook doesn't have the answer, say so politely";
    [];
    str "YOUR ANSWER:" ].

Definition fence : text := str "```".

(** The text [_evaluate_context] hands to [json.loads]: the stripped reply,
    or what stands between its first two fences, less a leading [json]. *)
Definition reply_body (content : text) : text :=
  let response_text := strip content in
  match after_first fence response_text with
  | Some after =>
      let response_text := before_first fence after in
      if startswith response_text (str "json")
      then skipn 4 response_text
      else response_text
  | None => response_text
  end.

(** [scores.get(key, default)] on a dictionary. *)
Fixpoint dict_get (fields : list (text * jvalue)) (k : text) (default : jvalue)
    : jvalue :=
  match fields with
  | [] => default
  | (k', v) :: rest =>
      if text_eq_dec k' k then v else dict_get rest k default
  end.

(** The dictionary [_evaluate_context] falls back to. *)
Definition fallback_scores : json :=
  JObject [ (str "relevance_score", JNum 0.5%float);
            (str "completeness_score", JNum 0.5%float);
            (str "clarity_score", JNum 0.5%float);
            (str "reasoning", JStr (str "Evaluation parsing failed")) ].

Definition TypeError : text := str "TypeError".
Definition AttributeError : text := str "AttributeError".

(** [a + b] on parsed values: numbers add, strings concatenate, and any
    other pair leaves the sum of the three scores undefined no later than
    its division. *)
Definition py_add (a b : jvalue) : outcome jvalue :=
  match a, b with
  | JNum x, JNum y => Returned (JNum (x + y)%float)
  | JStr s, JStr t => Returned (JStr (s ++ t))
  | _, _ => Raised TypeError
  end.

(** [a / 3]. *)
Definition py_div3 (a : jvalue) : outcome float :=
  match a with
  | JNum x => Returned (x / 3)%float
  | _ => Raised TypeError
  end.

(** [avg_score]: the sum of the three scores, left to right, over 3. *)
Definition average (r c l : jvalue) : outcome float :=
  match py_add r c with
  | Returned rc =>
      match py_add rc l with
      | Returned rcl => py_div3 rcl
      | Raised e => Raised e
      end
  | Raised e => Raised e
  end.

(** The threshold ladder of [_evaluate_context]: the tier and the
    [needs_correction] flag of an average. *)
Definition grade (avg_score : float) : QualityLevel * bool :=
  if (0.8 <=? avg_score)%float then (EXCELLENT, false)
  else if (0.6 <=? avg_score)%float then (GOOD, false)
  else if (0.4 <=? avg_score)%float then (FAIR, true)
  else (POOR, true).

(** The part of [_evaluate_context] after the [try]: from the dictionary of
    scores to the evaluation. *)
Definition evaluation_of (scores : json) : outcome ContextEvaluation :=
  match scores with
  | JNotObject => Raised AttributeError
  | JObject fields =>
      let r := dict_get fields (str "relevance_score") (JNum 0.5%float) in
      let c := dict_get fields (str "completeness_score") (JNum 0.5%float) in
      let l := dict_get fields (str "clarity_score") (JNum 0.5%float) in
      match average r c l with
      | Raised e => Raised e
      | Returned avg_score =>
          let '(level, needs) := grade avg_score in
          Returned (mkContextEvaluation r c l level needs
                      (dict_get fields (str "reasoning") (JStr [])))
      end
  end.

(** The evaluation of an empty context. *)
Definition no_context : ContextEvaluation :=
  mkContextEvaluation (JNum 0.0%float) (JNum 0.0%float) (JNum 0.0%float)
    POOR true (JStr (str "No context retrieved")).

(** [f"Page {doc.metadata.get('page', '?')}"]. *)
Definition page_label (doc : Document) : text :=
  str "Page " ++
  match page doc with
  | Some n => str (DecimalString.NilEmpty.string_of_uint (Nat.to_uint n))
  | None => str "?"
  end.

(** The context of retrieved documents: the non-empty bodies, joined by a
    blank line. *)
Definition context_of (docs : list Document) : text :=
  join (nl ++ nl)
    (filter (fun body => negb (length body =? 0)) (map page_content docs)).

(** What a retrieval method returns for the result of its search. *)
Definition retrieved (r : outcome (list Document)) : list Document * text :=
  match r with
  | Returned [] => ([], [])
  | Returned docs => (docs, context_of docs)
  | Raised _ => ([], [])
  end.

(** The monad of [query]: the metrics dictionary is threaded through, an
    exception ends the computation and leaves the dictionary as it is at
    that point. *)
Definition M (A : Type) : Type := Metrics -> Prog (Metrics * outcome A).

Definition ret {A : Type} (a : A) : M A := fun m => Ret (m, Returned a).

Definition bind {A B : Type} (x : M A) (f : A -> M B) : M B :=
  fun m =>
    pbind (x m)
      (fun mo =>
         match snd mo with
         | Returned a => f a (fst mo)
         | Raised e => Ret (fst mo, Raised e)
         end).

(** A method of the pipeline that returns. *)
Definition call {A : Type} (p : Prog A) : M A :=
  fun m => pbind p (fun a => Ret (m, Returned a)).

(** A method of the pipeline that returns or raises. *)
Definition call_raising {A : Type} (p : Prog (outcome A)) : M A :=
  fun m => pbind p (fun o => Ret (m, o)).

(** A method of the guardrails, which updates the metrics. *)
Definition screen {A : Type} (f : Metrics -> Metrics * A) : M A :=
  fun m => Ret (fst (f m), Returned (snd (f m))).

Declare Scope rag_scope.
Delimit Scope rag_scope with rag.
Notation "x <- c ;; k" := (bind c (fun x => k))
  (at level 61, c at next level, right associativity) : rag_scope.
Notation "' p <- c ;; k" := (bind c (fun x => let p := x in k))
  (at level 61, p pattern, c at next level, right associativity) : rag_scope.

(** The response to a blocked input. *)
Definition blocked_response (input_check : GuardrailResult) : RAGResponse :=
  mkRAGResponse (reason input_check) POOR FALLBACK [] false false (str "N/A").

(** The response when the primary retrieval has no documents. *)
Definition no_results_response : RAGResponse :=
  mkRAGResponse
    (str "I couldn't find information about that in your textbook. Could you try asking in a different way? 🤔")
    POOR FALLBACK [] false true (str "Low").

Definition apology : text :=
  str "I'm sorry, I couldn't generate an appropriate response. Please try asking another question! 😊".

Definition confidence_of (q : QualityLevel) : text :=
  match q with
  | EXCELLENT => str "High 🌟"
  | GOOD => str "Good 👍"
  | FAIR => str "Medium 🤔"
  | POOR => str "Low ❓"
  end.

Section WithLibrary.

(** [json.loads]: the parsed value, or [None] when it raises. *)
Variable json_loads : text -> option json.

(** [str(v)] of a parsed value that is not a string. *)
Variable py_str : jvalue -> text.

Definition format_value (v : jvalue) : text :=
  match v with
  | JStr s => s
  | _ => py_str v
  end.

(** The dictionary of scores [_evaluate_context] gets from the reply of the
    model: the parsed reply, or the fallback when the call or the parsing
    raises. *)
Definition scores_of (r : outcome text) : json :=
  match r with
  | Returned content =>
      match json_loads (reply_body content) with
      | Some scores => scores
      | None => fallback_scores
      end
  | Raised _ => fallback_scores
  end.

Definition _evaluate_context (query context : text)
    : Prog (outcome ContextEvaluation) :=
  Enter evaluate_context
    (if (length context =? 0) || (length (strip context) =? 0)
     then Ret (Returned no_context)
     else Invoke (evaluation_prompt query (firstn 2000 context))
            (fun r => Ret (evaluation_of (scores_of r)))).

Definition _refine_query (original_query : text) (evaluation : ContextEvaluation)
    : Prog (outcome text) :=
  Enter refine_query
    (Invoke (refine_prompt original_query (format_value (reasoning evaluation)))
       (fun r =>
          match r with
          | Returned content => Ret (Returned (strip content))
          | Raised e => Ret (Raised e)
          end)).

(** [self.vectorstore] is some index ([true]) or [None] ([false]). *)
Variable vectorstore : bool.

Definition _retrieve_primary (query : text) : Prog (list Document * text) :=
  Enter (retrieve PRIMARY)
    (if negb vectorstore then Ret ([], [])
     else Search query 4 (fun r => Ret (retrieved r))).

Definition _retrieve_secondary (query : text) : Prog (list Document * text) :=
  Enter (retrieve SECONDARY)
    (if negb vectorstore then Ret ([], [])
     else
       let expanded_query := query ++ str " lesson chapter story poem meaning" in
       Search expanded_query 6 (fun r => Ret (retrieved r))).

Definition _retrieve_tertiary (query : text) : Prog (list Document * text) :=
  Enter (retrieve TERTIARY)
    (if negb vectorstore then Ret ([], [])
     else
       Invoke (expand_prompt query)
         (fun r =>
            match r with
            | Returned content =>
                let expanded_query := strip content in
                Search expanded_query 8 (fun r => Ret (retrieved r))
            | Raised _ => Ret ([], [])
            end)).

(** The local variables [docs], [context], [evaluation], [retrieval_level]
    and [was_corrected] of [query] when it reaches the generation step. *)
Record Retrieved : Type := mkRetrieved {
  final_docs : list Document;
  final_context : text;
  final_evaluation : ContextEvaluation;
  final_level : RetrievalLevel;
  final_corrected : bool
}.

Open Scope rag_scope.

(** Step 4 of [query]: the fallback ladder, entered when the primary context
    needs correction. *)
Definition fallback (safe_query : text) : M Retrieved :=
  ' (docs, context) <- call (_retrieve_secondary safe_query) ;;
  evaluation <- call_raising (_evaluate_context safe_query context) ;;
  if needs_correction evaluation then
    refined_query <- call_raising (_refine_query safe_query evaluation) ;;
    ' (docs, context) <- call (_retrieve_tertiary refined_query) ;;
    evaluation <- call_raising (_evaluate_context refined_query context) ;;
    ret (mkRetrieved docs context evaluation TERTIARY true)
  else
    ret (mkRetrieved docs context evaluation SECONDARY false).

(** Steps 2 to 6 of [query]: what follows a passed input check. *)
Definition retrieve_and_answer (safe_query : text) : M RAGResponse :=
  (* step 2: primary retrieval *)
  ' (docs, context) <- call (_retrieve_primary safe_query) ;;
  match docs with
  | [] => ret no_results_response
  | _ :: _ =>
      (* step 3: evaluation of the context *)
      evaluation <- call_raising (_evaluate_context safe_query context) ;;
      (* step 4: fallback *)
      got <- (if needs_correction evaluation
              then fallback safe_query
              else ret (mkRetrieved docs context evaluation PRIMARY false)) ;;
      (* step 5: generation *)
      response <- call_raising
                    (Enter generate_response
                       (Invoke (generation_prompt (final_context got) safe_query)
                          (fun r => Ret r))) ;;
      (* step 6: output guardrails *)
      output_check <- screen (fun m => validate_output m response) ;;
      let answer := if negb (is_safe output_check) then apology
                    else sanitized_text output_check in
      let sources := nodup text_eq_dec (map page_label (final_docs got)) in
      ret (mkRAGResponse answer
             (quality_level (final_evaluation got))
             (final_level got) sources (final_corrected got) true
             (confidence_of (quality_level (final_evaluation got))))
  end.

(** [query], without the printing of [verbose]. *)
Definition query (user_query : text) : M RAGResponse :=
  (* step 1: input guardrails *)
  input_check <- screen (fun m => validate_input m user_query) ;;
  if negb (is_safe input_check) then ret (blocked_response input_check)
  else retrieve_and_answer (sanitized_text input_check).

Close Scope rag_scope.

(** A query in a world: the trace, the metrics afterwards and the response
    or the exception. *)
Definition run_query (w : World) (past : list Event) (m : Metrics)
    (user_query : text) : list Event * (Metrics * outcome RAGResponse) :=
  run w past (query user_query m).

End WithLibrary.

(** The parts of a run of [query]. *)
Definition trace_of {A : Type} (r : list Event * (Metrics * outcome A))
    : list Event := fst r.
Definition metrics_of {A : Type} (r : list Event * (Metrics * outcome A))
    : Metrics := fst (snd r).
Definition outcome_of {A : Type} (r : list Event * (Metrics * outcome A))
    : outcome A := snd (snd r).

End Rag.

(* ================================================================= *)
(** ** The specification's vocabulary *)

Module Spec.
Import Guardrails Interaction Rag.




(** The blocked categories of the input check. *)
Inductive category : Type :=
| injection | sexual | violence | drugs | bullying | cheating.

(** The priority order of the specification: injection, sexual, violence,
    drugs, bullying, cheating. *)
Definition rank (c : category) : nat :=
  match c with
  | injection => 0 | sexual => 1 | violence => 2
  | drugs => 3 | bullying => 4 | cheating => 5
  end.

Definition terms (c : category) : list text :=
  match c with
  | injection => injection_patterns
  | sexual => sexual_keywords
  | violence => violence_keywords
  | drugs => drugs_keywords
  | bullying => bullying_keywords
  | cheating => cheating_keywords
  end.

Definition category_name (c : category) : text :=
  match c with
  | injection => str "injection"
  | sexual => str "sexual"
  | violence => str "violence"
  | drugs => str "drugs"
  | bullying => str "bullying"
  | cheating => str "cheating"
  end.

(** The pre-written message of each category. *)
Definition block_message (c : category) : text :=
  match c with
  | injection =>
      str "🚫 Invalid request detected. Please ask a proper question."
  | sexual =>
      str "🚫 This question is not appropriate for students. Please ask questions related to your studies."
  | violence =>
      str "🚫 Questions about violence are not allowed. Please ask educational questions."
  | drugs =>
      str "🚫 This topic is not appropriate for students. Please ask study-related questions."
  | bullying =>
      str "🚫 Please be respectful! Unkind words are not allowed. Ask nicely! 😊"
  | cheating =>
      str "🚫 I can't help with cheating. I'm here to help you learn! 📚"
  end.

(** The counter of each category. *)
Definition counter (c : category) : key :=
  match c with
  | injection => blocked_injection
  | sexual => blocked_sexual
  | violence => blocked_violence
  | drugs => blocked_drugs
  | bullying => blocked_bullying
  | cheating => blocked_cheating
  end.

Definition categories : list category :=
  [injection; sexual; violence; drugs; bullying; cheating].

(** The text contains, in any letter case, a term of the category. *)
Definition mentions (t : text) (c : category) : Prop :=
  exists term, In term (terms c) /\ occurs term (lower t).

(** The check of one category, as [validate_input] runs it. *)
Definition checks (t : text) (c : category) : bool :=
  fst (first_keyword (lower t) (terms c)).

(** [c] is the first category, in priority order, that the text mentions. *)
Definition first_category (t : text) (c : category) : Prop :=
  mentions t c /\ forall c', rank c' < rank c -> ~ mentions t c'.

(** The text mentions no category. *)
Definition clean (t : text) : Prop := forall c, ~ mentions t c.


(** The verdict of the input check on a blocked text of category [c]. *)
Definition blocked_verdict (c : category) : GuardrailResult :=
  mkGuardrailResult false (block_message c) [] (category_name c).

(** The input check blocks the text. *)
Definition is_blocked (t : text) : bool := existsb (checks t) categories.

(** The steps of a query that goes all the way. *)
Definition ladder : list Step :=
  [ retrieve PRIMARY; evaluate_context;
    retrieve SECONDARY; evaluate_context;
    refine_query; retrieve TERTIARY; evaluate_context;
    generate_response ].

Definition is_prefix {A : Type} (l full : list A) : Prop :=
  exists rest, full = l ++ rest.

(** The query that the pipeline works with after a passed input check. *)
Definition safe_query_of (q : text) : text := fst (_mask_pii q).

Section WithLibrary.

Variable json_loads : text -> option json.
Variable py_str : jvalue -> text.
Variable vectorstore : bool.

(** The documents of the primary retrieval of the query [q], run in [w]
    after [past]. *)
Definition primary_docs (w : World) (past : list Event) (q : text)
    : list Document :=
  fst (snd (run w past (_retrieve_primary vectorstore (safe_query_of q)))).

(** The evaluations in a trace, in order: what [_evaluate_context] made of
    the reply to its grading call, or of a blank context when it made no
    call. *)
Fixpoint verdicts (tr : list Event) : list (outcome ContextEvaluation) :=
  match tr with
  | [] => []
  | EvEnter evaluate_context :: tr' =>
      match tr' with
      | EvInvoke _ r :: tr'' =>
          evaluation_of (scores_of json_loads r) :: verdicts tr''
      | _ => Returned no_context :: verdicts tr'
      end
  | _ :: tr' => verdicts tr'
  end.

(** The error of the last event of a trace, when that event is a call to
    the model that raised. *)
Definition failed_last (tr : list Event) : option text :=
  match rev tr with
  | EvInvoke _ (Raised e) :: _ => Some e
  | _ => None
  end.

(** The rung of the retrieval ladder a query has reached. *)
Inductive rung : Type := at_primary | at_secondary | at_tertiary.

Definition level_of (g : rung) : RetrievalLevel :=
  match g with
  | at_primary => PRIMARY
  | at_secondary => SECONDARY
  | at_tertiary => TERTIARY
  end.

Definition is_tertiary (g : rung) : bool :=
  match g with at_tertiary => true | _ => false end.

(** The steps up to the evaluation at a rung. *)
Definition steps_to (g : rung) : list Step :=
  match g with
  | at_primary => [retrieve PRIMARY; evaluate_context]
  | at_secondary =>
      [retrieve PRIMARY; evaluate_context; retrieve SECONDARY; evaluate_context]
  | at_tertiary =>
      [retrieve PRIMARY; evaluate_context; retrieve SECONDARY; evaluate_context;
       refine_query; retrieve TERTIARY; evaluate_context]
  end.

(** [climbed g vs v]: the evaluations [vs] of a query that reached the rung
    [g], where [v] is the evaluation at [g]; the evaluations below [g] all
    asked for correction. *)
Inductive climbed : rung -> list (outcome ContextEvaluation) ->
                    outcome ContextEvaluation -> Prop :=
| climbed_primary v : climbed at_primary [v] v
| climbed_secondary e1 v :
    needs_correction e1 = true ->
    climbed at_secondary [Returned e1; v] v
| climbed_tertiary e1 e2 v :
    needs_correction e1 = true -> needs_correction e2 = true ->
    climbed at_tertiary [Returned e1; Returned e2; v] v.

(** The evaluation at a rung lets the query go on to the generation: it
    asks for no correction, or the rung is the last. *)
Definition settles (g : rung) (e : ContextEvaluation) : Prop :=
  match g with
  | at_tertiary => True
  | _ => needs_correction e = false
  end.

(** The runs of steps 2 to 6 of [query], started with the metrics [m1]:
    the steps, the evaluations, the error of a failed last call, the metrics
    afterwards and the outcome. *)
Inductive path (m1 : Metrics) :
    list Step -> list (outcome ContextEvaluation) -> option text ->
    Metrics -> outcome RAGResponse -> Prop :=
| path_no_results :
    path m1 [retrieve PRIMARY] [] None m1 (Returned no_results_response)
| path_grading_failed g vs e :
    climbed g vs (Raised e) ->
    e = TypeError \/ e = AttributeError ->
    path m1 (steps_to g) vs None m1 (Raised e)
| path_refine_failed e1 e2 e :
    needs_correction e1 = true -> needs_correction e2 = true ->
    path m1
      [retrieve PRIMARY; evaluate_context; retrieve SECONDARY;
       evaluate_context; refine_query]
      [Returned e1; Returned e2] (Some e) m1 (Raised e)
| path_generation_failed g vs ev e :
    climbed g vs (Returned ev) -> settles g ev ->
    path m1 (steps_to g ++ [generate_response]) vs (Some e) m1 (Raised e)
| path_answered g vs ev r :
    climbed g vs (Returned ev) -> settles g ev ->
    retrieval_level r = level_of g ->
    was_corrected r = is_tertiary g ->
    guardrail_passed r = true ->
    context_quality r = quality_level ev ->
    confidence r = confidence_of (quality_level ev) ->
    path m1 (steps_to g ++ [generate_response]) vs None
      (add_to total_output_checks 1 m1) (Returned r).


End WithLibrary.

End Spec.

(* ================================================================= *)
(** ** The vocabulary of the PII masking *)

Module MaskSpec.
Import Regex Guardrails.

(** What a pattern matches, read off the pattern: the text [m] at the head
    of [s] is made of the pieces of the atoms in order. *)
Fixpoint reads (p : pattern) (m s : text) : Prop :=
  match p with
  | [] => m = []
  | Bnd :: rest => reads rest m s
  | Rep cls lo hi :: rest =>
      exists m1 m2 s2,
        s = m1 ++ s2 /\ m = m1 ++ m2 /\
        Forall (fun c => icase cls c = true) m1 /\
        lo <= length m1 /\ reads rest m2 s2
  | Alt alts :: rest =>
      exists lit m1 m2 s2,
        In lit alts /\ s = m1 ++ s2 /\ m = m1 ++ m2 /\
        lower m1 = lower lit /\ reads rest m2 s2
  end.

(** The characters an atom can read. *)
Definition atom_accepts (c : ascii) (a : atom) : bool :=
  match a with
  | Bnd => false
  | Rep cls _ _ => icase cls c
  | Alt alts =>
      existsb
        (fun lit => existsb (fun d => ascii_eqb (lower_char c) (lower_char d)) lit)
        alts
  end.

Definition accepts (p : pattern) (c : ascii) : bool :=
  existsb (atom_accepts c) p.

(** The characters that mark a match: a digit or the at sign.  No
    placeholder token has one. *)
Definition key_char (c : ascii) : bool := is_digit c || ascii_eqb c "@".

Definition all_ascii : list ascii := map ascii_of_nat (seq 0 256).

(** The atom reads at least one character, and only marking ones. *)
Definition marking (a : atom) : bool :=
  match a with
  | Rep cls lo _ =>
      (1 <=? lo)
      && forallb (fun c => implb (icase cls c) (key_char c)) all_ascii
  | _ => false
  end.

(** A pattern whose matches have no square bracket and have a marking
    character. *)
Definition pattern_ok (p : pattern) : bool :=
  negb (accepts p "[") && negb (accepts p "]") && existsb marking p.

(** A matched value as the masking needs it: no square bracket in it, and a
    marking character. *)
Definition marked (m : text) : Prop :=
  ~ In "["%char m /\ ~ In "]"%char m /\
  exists c, In c m /\ key_char c = true.

(** A placeholder token: in square brackets, with no marking character. *)
Definition token (t : text) : Prop :=
  (exists body, t = "["%char :: body ++ ["]"%char]) /\
  Forall (fun c => key_char c = false) t.

(** [Replaced old new s out]: [out] is [s] with the occurrences of [old]
    replaced by [new], scanning from the left. *)
Inductive Replaced (old new : text) : text -> text -> Prop :=
| replaced_end : Replaced old new [] []
| replaced_here rest out :
    Replaced old new rest out ->
    Replaced old new (old ++ rest) (new ++ out)
| replaced_next c s out :
    startswith (c :: s) old = false ->
    Replaced old new s out ->
    Replaced old new (c :: s) (c :: out).

(** A masking step: the type of the item and its value. *)
Definition mask_step (masked : text) (item : pii_item) : text :=
  replace masked (snd item) (placeholder (fst item)).

(** The items of one pattern and of a list of patterns, in the order in
    which [_mask_pii] finds them. *)
Definition items_of (pii_type : text) (p : pattern) (t : text)
    : list pii_item :=
  map (fun value => (pii_type, value)) (finditer p t).

Definition items (patterns : list (text * pattern)) (t : text)
    : list pii_item :=
  flat_map (fun tp => items_of (fst tp) (snd tp) t) patterns.

(** An item as the masking needs it: a marked value, to be replaced by a
    token. *)
Definition sound_item (item : pii_item) : Prop :=
  marked (snd item) /\ token (placeholder (fst item)).


End MaskSpec.

(* ================================================================= *)
(** ** Sample worlds *)

Module Samples.
Import Guardrails Interaction Rag Spec.

(** A chunk of the textbook, from its first page. *)
Definition chunk : Document :=
  mkDocument (str "A young boy loved a tree. The tree gave him shade.") (Some 1).

(** A grading reply, and the dictionary [json.loads] makes of it. *)
Definition good_reply : text :=
  str "{" ++ dquote ++ str "relevance_score" ++ dquote ++ str ": 0.9, "
  ++ dquote ++ str "completeness_score" ++ dquote ++ str ": 0.8, "
  ++ dquote ++ str "clarity_score" ++ dquote ++ str ": 0.7, "
  ++ dquote ++ str "reasoning" ++ dquote ++ str ": "
  ++ dquote ++ str "clear" ++ dquote ++ str "}".

Definition good_scores : json :=
  JObject [ (str "relevance_score", JNum 0.9%float);
            (str "completeness_score", JNum 0.8%float);
            (str "clarity_score", JNum 0.7%float);
            (str "reasoning", JStr (str "clear")) ].

(** [json.loads] on the replies of the sample worlds: [good_reply] parses,
    their other replies are prose and do not. *)
Definition sample_json_loads (t : text) : option json :=
  if text_eq_dec t good_reply then Some good_scores else None.

(** [str] of a value that is not a string; the samples have none. *)
Definition sample_py_str (v : jvalue) : text := str "None".

(** An index that finds nothing; the model is never reached. *)
Definition empty_index : World :=
  mkWorld (fun _ _ _ => Returned []) (fun _ _ => Returned []).



(** The index finds the chunk and the model answers every call in prose. *)
Definition vague_model : World :=
  mkWorld (fun _ _ _ => Returned [chunk])
          (fun _ _ => Returned (str "It is about a boy and a tree.")).

(** The index finds the chunk, the model grades it well on its first call
    and answers in prose afterwards. *)
Definition helpful_model : World :=
  mkWorld (fun _ _ _ => Returned [chunk])
          (fun past _ =>
             if llm_calls past =? 0 then Returned good_reply
             else Returned (str "It is about a boy and a tree.")).

Definition story_question : text := str "What is the story about?".

End Samples.

(* ================================================================= *)
(** ** The vocabulary of the two checks *)

Module Screening.
Import Regex Guardrails Spec MaskSpec.

(** [self.inappropriate_questions]; no method of the class reads it. *)
Definition inappropriate_questions : list text := map str
  [ "how to make bomb"; "how to make weapon"; "how to hurt";
    "how to kill"; "where to buy drugs"; "how to steal";
    "how to hack"; "how to cheat in exam" ].

(** The categories that [validate_output] checks, in its order. *)
Definition output_categories : list category :=
  [sexual; violence; drugs; bullying].

(** The reason [validate_output] gives for each of them. *)
Definition output_message (c : category) : text :=
  match c with
  | sexual | drugs => str "Response contained inappropriate content"
  | violence => str "Response contained violent content"
  | bullying => str "Response contained unkind language"
  | injection | cheating => []
  end.


(** A text of ASCII characters, on which [str.lower], [str.upper] and the
    classes of [re] are the ones of the ASCII range. *)
Definition is_ascii (c : ascii) : bool := code c <? 128.
Definition ascii_text (t : text) : Prop := forallb is_ascii t = true.

(** A text without square bracket. *)
Definition plain (k : text) : Prop := ~ In "["%char k /\ ~ In "]"%char k.

(** [Patched new s out]: [out] is [s] with some of its segments replaced by
    [new]. *)
Inductive Patched (new : text) : text -> text -> Prop :=
| patched_end : Patched new [] []
| patched_here seg rest out :
    Patched new rest out -> Patched new (seg ++ rest) (new ++ out)
| patched_next c s out :
    Patched new s out -> Patched new (c :: s) (c :: out).

(** A text in square brackets. *)
Definition bracketed (t : text) : Prop :=
  exists body, t = "["%char :: body ++ ["]"%char].

(** A term that the masking cannot bring into a text: it has no square
    bracket and is in no placeholder. *)
Definition foreign (k : text) : bool :=
  negb (existsb (ascii_eqb "[") k) && negb (existsb (ascii_eqb "]") k)
  && forallb (fun tp => negb (contains (lower (placeholder (fst tp))) k))
       pii_patterns.

(** All the terms of the input and output checks. *)
Definition all_terms : list text := flat_map terms categories.

End Screening.

(* ================================================================= *)
(** ** The vocabulary of the grading *)

Module Grading.
Import Guardrails Interaction Rag Spec.


(** The three keys of the scores. *)
Definition score_keys : list text :=
  [str "relevance_score"; str "completeness_score"; str "clarity_score"].


End Grading.

(* ================================================================= *)
(** ** What a run leaves behind *)

Module Traces.
Import Guardrails Interaction Rag Spec.

(** The documents that the last retrieval of a trace came back with. *)
Fixpoint documents_from (docs : list Document) (tr : list Event)
    : list Document :=
  match tr with
  | [] => docs
  | EvEnter (retrieve _) :: tr' => documents_from [] tr'
  | EvSearch _ _ r :: tr' => documents_from (fst (retrieved r)) tr'
  | _ :: tr' => documents_from docs tr'
  end.

Definition final_documents (tr : list Event) : list Document :=
  documents_from [] tr.

(** The searches of a trace: what was asked of the index, and how many
    documents. *)
Fixpoint searches (tr : list Event) : list (text * nat) :=
  match tr with
  | [] => []
  | EvSearch q k _ :: tr' => (q, k) :: searches tr'
  | _ :: tr' => searches tr'
  end.

(** The generation call of a trace that ends with it: its prompt and what
    came back. *)
Definition generation_of (tr : list Event) : option (text * outcome text) :=
  match rev tr with
  | EvInvoke prompt r :: EvEnter generate_response :: _ => Some (prompt, r)
  | _ => None
  end.

(** The verdict of the output check, which does not depend on the
    counters. *)
Definition output_verdict (reply : text) : GuardrailResult :=
  snd (validate_output initial_metrics reply).

(** What [query] makes of the reply of the generation: the apology when the
    output check blocks it, the sanitized reply otherwise. *)
Definition screened (reply : text) : text :=
  if negb (is_safe (output_verdict reply)) then apology
  else sanitized_text (output_verdict reply).

(** The words that the secondary retrieval adds to the query. *)
Definition secondary_words : text := str " lesson chapter story poem meaning".

(** The searches of a query as far as it went up the ladder; the last one
    asks for the stripped reply of the model to the expansion prompt. *)
Definition ladder_searches (safe_query : text) (tr : list Event) : Prop :=
  searches tr = [] \/
  searches tr = [(safe_query, 4)] \/
  searches tr = [(safe_query, 4); (safe_query ++ secondary_words, 6)] \/
  exists refined_query content,
    In (EvInvoke (expand_prompt refined_query) (Returned content)) tr /\
    searches tr = [(safe_query, 4); (safe_query ++ secondary_words, 6);
                   (strip content, 8)].

(** What the run of steps 2 to 6 of [query] leaves behind, besides its
    path. *)
Definition accounted (safe_query : text) (tr : list Event)
    (res : outcome RAGResponse) : Prop :=
  search_calls tr <= 3 /\ llm_calls tr <= 6 /\
  ladder_searches safe_query tr /\
  forall r,
    res = Returned r ->
    r = no_results_response \/
    exists reply,
      generation_of tr
      = Some (generation_prompt (context_of (final_documents tr)) safe_query,
              Returned reply) /\
      answer r = screened reply /\
      sources r = nodup text_eq_dec (map page_label (final_documents tr)) /\
      guardrail_passed r = true /\
      retrieval_level r <> FALLBACK.

End Traces.

(* ================================================================= *)
(** ** Loading a textbook *)

Module Loading.
Import Interaction.

(** A [Document] as the loading methods make it: its text and the entries
    of its metadata. *)
Record Chunk : Type := mkChunk {
  chunk_content : text;          (* page_content *)
  chunk_source : text;           (* metadata["source"] *)
  chunk_page : option nat;       (* metadata["page"], of load_pdf *)
  chunk_section : option nat;    (* metadata["section"], of load_text_documents *)
  chunk_id : nat                 (* metadata["chunk_id"] *)
}.

(** What the retrieval reads of it. *)
Definition document_of (c : Chunk) : Document :=
  mkDocument (chunk_content c) (chunk_page c).

(** [enumerate(l)]. *)
Definition enumerate {A : Type} (l : list A) : list (nat * A) :=
  combine (seq 0 (length l)) l.

(** [not s or not s.strip()]. *)
Definition blank (s : text) : bool :=
  (length s =? 0) || (length (strip s) =? 0).

Section WithLibrary.

(** The index that [FAISS.from_documents] builds. *)
Variable Index : Type.

(** [PyPDFLoader(pdf_path).load()]: the text of each page. *)
Variable load : text -> outcome (list text).

(** [self.text_splitter.split_text]. *)
Variable split_text : text -> outcome (list text).

(** [FAISS.from_documents], which embeds the chunks. *)
Variable from_documents : list Chunk -> outcome Index.

(** [self.documents] and [self.vectorstore]. *)
Record System : Type := mkSystem {
  documents : list Chunk;
  vectorstore : option Index
}.

(** The chunks of one page of [load_pdf]: none of a blank page; the chunks
    of the splitter, or the whole page when the splitter raises; each one
    stripped, the blank ones left out.  A page without text is a blank
    page.  Nothing else in the body of the loop raises, so the handler
    around it, which skips the page, is never entered. *)
Definition page_chunks (pdf_path : text) (i : nat) (page_content : text)
    : list Chunk :=
  if blank page_content then []
  else
    let chunks :=
      match split_text page_content with
      | Returned chunks => chunks
      | Raised _ =>
          if negb (length (strip page_content) =? 0)
          then [strip page_content] else []
      end in
    flat_map
      (fun jc =>
         if negb (blank (snd jc))
         then [mkChunk (strip (snd jc)) pdf_path (Some (i + 1)) None (fst jc)]
         else [])
      (enumerate chunks).

Definition load_pdf (pdf_path : text) (self : System) : System * nat :=
  match load pdf_path with
  | Raised _ => (self, 0)
  | Returned pages =>
      if length pages =? 0 then (self, 0)
      else
        let all_chunks :=
          flat_map (fun ip => page_chunks pdf_path (fst ip) (snd ip))
            (enumerate pages) in
        if length all_chunks =? 0 then (self, 0)
        else
          let self := mkSystem all_chunks (vectorstore self) in
          match from_documents all_chunks with
          | Raised _ => (self, 0)
          | Returned index =>
              (mkSystem all_chunks (Some index), length all_chunks)
          end
  end.

(** The loop of [load_text_documents] from the text number [i] on. *)
Fixpoint text_chunks (source_name : text) (i : nat) (texts : list text)
    : outcome (list Chunk) :=
  match texts with
  | [] => Returned []
  | t :: rest =>
      match split_text t with
      | Raised e => Raised e
      | Returned chunks =>
          match text_chunks source_name (S i) rest with
          | Raised e => Raised e
          | Returned more =>
              Returned
                (map (fun jc =>
                        mkChunk (snd jc) source_name None (Some (i + 1)) (fst jc))
                   (enumerate chunks)
                 ++ more)
          end
      end
  end.

Definition load_text_documents (texts : list text) (source_name : text)
    (self : System) : System * outcome nat :=
  match text_chunks source_name 0 texts with
  | Raised e => (self, Raised e)
  | Returned all_chunks =>
      let self := mkSystem all_chunks (vectorstore self) in
      match from_documents all_chunks with
      | Raised e => (self, Raised e)
      | Returned index =>
          (mkSystem all_chunks (Some index), Returned (length all_chunks))
      end
  end.

End WithLibrary.

Arguments documents {Index} _.
Arguments vectorstore {Index} _.
Arguments mkSystem {Index} _ _.
Arguments load_pdf {Index} _ _ _ _ _.
Arguments load_text_documents {Index} _ _ _ _ _.

(** A chunk as [load_pdf] stores it. *)
Definition pdf_chunk (pdf_path : text) (pages : list text) (c : Chunk) : Prop :=
  chunk_content c <> [] /\
  strip (chunk_content c) = chunk_content c /\
  chunk_source c = pdf_path /\
  chunk_section c = None /\
  exists p page_content,
    chunk_page c = Some p /\ 1 <= p <= length pages /\
    nth_error pages (p - 1) = Some page_content /\
    strip page_content <> [].

(** A chunk as [load_text_documents] stores it. *)
Definition text_chunk (source_name : text) (texts : list text) (c : Chunk)
    : Prop :=
  chunk_source c = source_name /\
  chunk_page c = None /\
  exists n, chunk_section c = Some n /\ 1 <= n <= length texts.

End Loading.

(* ================================================================= *)
(** ** The sidebar of the application *)

Module App.
Import Guardrails.


End App.

(* ================================================================= *)
(** ** Sample textbooks *)

Module LoadSamples.
Import Interaction Loading.

(** A splitter that keeps each text whole, and an index that is built. *)
Definition whole_text (t : text) : outcome (list text) := Returned [t].
Definition built (chunks : list Chunk) : outcome unit := Returned tt.

(** A reader of a file of two pages, the second one blank. *)
Definition two_pages (pdf_path : text) : outcome (list text) :=
  Returned [str "  A young boy loved a tree. "; str "   "].


Definition empty_system : System unit := mkSystem [] None.

(** A chunk of a text and a chunk of a file. *)
Definition text_sample : Chunk :=
  mkChunk (str "A young boy loved a tree.") (str "Sample") None (Some 1) 0.
Definition pdf_sample : Chunk :=
  mkChunk (str "A young boy loved a tree.") (str "book.pdf") (Some 1) None 0.

(** An index that finds the given chunk, with a model that grades it well on
    its first call and answers in prose afterwards. *)
Definition index_of (c : Chunk) : World :=
  mkWorld
    (fun _ _ _ => Returned [document_of c])
    (fun past _ =>
       if llm_calls past =? 0 then Returned Samples.good_reply
       else Returned (str "It is about a boy and a tree.")).

End LoadSamples.

(* ================================================================= *)
(** ** Facts about binary64 comparison *)

Module FloatFacts.
Import SpecFloat.







End FloatFacts.

(* ================================================================= *)
(** ** Facts about texts *)

Module TextFacts.

Lemma ascii_eqb_eq (a b : ascii) : ascii_eqb a b = true <-> a = b.
Proof. apply Ascii.eqb_eq. Qed.

Lemma startswith_iff (s p : text) :
  startswith s p = true <-> exists suf, s = p ++ suf.
Proof.
  revert s. induction p as [|a p IH]; intros s; simpl.
  - split; [exists s; reflexivity | destruct s; reflexivity].
  - destruct s as [|b s].
    + split; [discriminate | intros [suf H]; discriminate].
    + simpl. rewrite andb_true_iff, ascii_eqb_eq, IH. split.
      * intros [-> [suf ->]]. exists suf. reflexivity.
      * intros [suf H]. injection H as -> ->. split; eauto.
Qed.

Lemma startswith_app (p suf : text) : startswith (p ++ suf) p = true.
Proof. apply startswith_iff. eauto. Qed.

Lemma occurs_here (needle s : text) :
  startswith s needle = true -> occurs needle s.
Proof. intros [suf ->]%startswith_iff. exists [], suf. reflexivity. Qed.

Lemma occurs_cons (needle s : text) (c : ascii) :
  occurs needle s -> occurs needle (c :: s).
Proof. intros (pre & suf & ->). exists (c :: pre), suf. reflexivity. Qed.

Lemma occurs_cons_inv (needle s : text) (c : ascii) :
  occurs needle (c :: s) ->
  startswith (c :: s) needle = true \/ occurs needle s.
Proof.
  intros ([|d pre] & suf & H).
  - left. simpl in H. rewrite H. apply startswith_app.
  - right. injection H as _ ->. exists pre, suf. reflexivity.
Qed.

(** [needle in s] decides the substring relation. *)
Lemma contains_iff (s needle : text) :
  contains s needle = true <-> occurs needle s.
Proof.
  induction s as [|c s IH].
  - change (contains [] needle) with (startswith [] needle || false).
    rewrite orb_false_r. split.
    + apply occurs_here.
    + intros ([|? ?] & suf & H); [|discriminate].
      simpl in H. rewrite H. apply startswith_app.
  - change (contains (c :: s) needle)
      with (startswith (c :: s) needle || contains s needle).
    rewrite orb_true_iff, IH. split.
    + intros [H | H]; [apply occurs_here, H | apply occurs_cons, H].
    + apply occurs_cons_inv.
Qed.

Lemma occurs_app_l (needle s t : text) : occurs needle s -> occurs needle (s ++ t).
Proof.
  intros (pre & suf & ->). exists pre, (suf ++ t).
  now rewrite <- !app_assoc.
Qed.

Lemma occurs_app_r (needle s t : text) : occurs needle t -> occurs needle (s ++ t).
Proof.
  intros (pre & suf & ->). exists (s ++ pre), suf.
  now rewrite <- !app_assoc.
Qed.

Lemma occurs_refl (s : text) : occurs s s.
Proof. exists [], []. now rewrite app_nil_r. Qed.

End TextFacts.

(* ================================================================= *)
(** ** The input and output checks *)

Module GuardrailFacts.
Import Regex Guardrails Spec TextFacts.

Lemma first_keyword_iff (text_lower : text) (keywords : list text) :
  fst (first_keyword text_lower keywords) = true <->
  exists term, In term keywords /\ occurs term text_lower.
Proof.
  induction keywords as [|kw rest IH]; simpl.
  - split; [discriminate | intros (? & [] & _)].
  - destruct (contains text_lower kw) eqn:E; simpl.
    + split; [|reflexivity]. intros _. exists kw.
      split; [now left | now apply contains_iff].
    + rewrite IH. split.
      * intros (term & Hin & Ho). exists term. split; [now right | exact Ho].
      * intros (term & [<- | Hin] & Ho).
        -- apply contains_iff in Ho. congruence.
        -- exists term. split; assumption.
Qed.

Lemma checks_iff (t : text) (c : category) :
  checks t c = true <-> mentions t c.
Proof. apply first_keyword_iff. Qed.

Lemma checks_false (t : text) (c : category) :
  checks t c = false <-> ~ mentions t c.
Proof.
  rewrite <- checks_iff. destruct (checks t c); split; congruence.
Qed.

(** [validate_input] as a search through the categories in order. *)
Lemma validate_input_unfold (m : Metrics) (t : text) :
  validate_input m t =
  let m1 := add_to total_input_checks 1 m in
  if checks t injection then (add_to blocked_injection 1 m1, blocked_verdict injection)
  else if checks t sexual then (add_to blocked_sexual 1 m1, blocked_verdict sexual)
  else if checks t violence then (add_to blocked_violence 1 m1, blocked_verdict violence)
  else if checks t drugs then (add_to blocked_drugs 1 m1, blocked_verdict drugs)
  else if checks t bullying then (add_to blocked_bullying 1 m1, blocked_verdict bullying)
  else if checks t cheating then (add_to blocked_cheating 1 m1, blocked_verdict cheating)
  else
    (add_to safe_queries 1
       (match snd (_mask_pii t) with
        | [] => m1
        | _ :: _ => add_to pii_detected (length (snd (_mask_pii t))) m1
        end),
     mkGuardrailResult true (str "✅ Query is safe") (fst (_mask_pii t)) []).
Proof.
  unfold validate_input, checks, _check_prompt_injection, _check_keywords.
  simpl terms. cbv zeta.
  repeat match goal with
    | |- (if ?b then _ else _) = (if ?b then _ else _) =>
        destruct b; [reflexivity|]
    end.
  destruct (_mask_pii t) as [sanitized found]; reflexivity.
Qed.

(** A text whose first category is [c] is blocked as [c]: the verdict
    carries the name and the message of [c], and the counter of [c] is the
    only category counter that moves. *)
Lemma validate_input_blocked (m : Metrics) (t : text) (c : category) :
  first_category t c ->
  validate_input m t =
  (add_to (counter c) 1 (add_to total_input_checks 1 m), blocked_verdict c).
Proof.
  intros [Hc Hfirst]. rewrite validate_input_unfold. cbv zeta.
  assert (Hlt : forall c', rank c' < rank c -> checks t c' = false)
    by (intros c' Hr; apply checks_false, Hfirst, Hr).
  apply checks_iff in Hc.
  destruct c; simpl in Hlt;
    rewrite ?(Hlt injection), ?(Hlt sexual), ?(Hlt violence),
            ?(Hlt drugs), ?(Hlt bullying) by (simpl; lia);
    rewrite Hc; reflexivity.
Qed.

Lemma validate_input_clean (m : Metrics) (t : text) :
  clean t ->
  validate_input m t =
  (add_to safe_queries 1
     (match snd (_mask_pii t) with
      | [] => add_to total_input_checks 1 m
      | _ :: _ => add_to pii_detected (length (snd (_mask_pii t)))
                    (add_to total_input_checks 1 m)
      end),
   mkGuardrailResult true (str "✅ Query is safe") (fst (_mask_pii t)) []).
Proof.
  intros Hclean. rewrite validate_input_unfold. cbv zeta.
  rewrite !(proj2 (checks_false t _)) by apply Hclean. reflexivity.
Qed.

(** Every text is clean or has a first category. *)
Lemma clean_or_blocked (t : text) :
  clean t \/ exists c, first_category t c.
Proof.
  assert (Hdec : forall c, {mentions t c} + {~ mentions t c}).
  { intros c. destruct (checks t c) eqn:E.
    - left. now apply checks_iff.
    - right. now apply checks_false. }
  destruct (Hdec injection) as [H0|H0].
  { right. exists injection. split; [exact H0 | intros c' Hr; destruct c'; simpl in Hr; lia]. }
  destruct (Hdec sexual) as [H1|H1].
  { right. exists sexual. split; [exact H1 |].
    intros c' Hr; destruct c'; simpl in Hr; try lia; assumption. }
  destruct (Hdec violence) as [H2|H2].
  { right. exists violence. split; [exact H2 |].
    intros c' Hr; destruct c'; simpl in Hr; try lia; assumption. }
  destruct (Hdec drugs) as [H3|H3].
  { right. exists drugs. split; [exact H3 |].
    intros c' Hr; destruct c'; simpl in Hr; try lia; assumption. }
  destruct (Hdec bullying) as [H4|H4].
  { right. exists bullying. split; [exact H4 |].
    intros c' Hr; destruct c'; simpl in Hr; try lia; assumption. }
  destruct (Hdec cheating) as [H5|H5].
  { right. exists cheating. split; [exact H5 |].
    intros c' Hr; destruct c'; simpl in Hr; try lia; assumption. }
  left. intros c. destruct c; assumption.
Qed.

Lemma mentions_first (t : text) (c : category) :
  mentions t c -> exists c', first_category t c' /\ rank c' <= rank c.
Proof.
  intros Hc. destruct (clean_or_blocked t) as [Hclean | [c' Hf]].
  - destruct (Hclean c Hc).
  - exists c'. split; [exact Hf|].
    destruct (le_lt_dec (rank c') (rank c)) as [Hle | Hlt]; [exact Hle|].
    destruct (proj2 Hf c Hlt Hc).
Qed.

End GuardrailFacts.

(* ================================================================= *)
(** ** The grading of a context *)

Module GradeFacts.
Import Guardrails Interaction Rag Spec FloatFacts.







End GradeFacts.

(* ================================================================= *)
(** ** Running a program: the rules of [wp] *)

Module RunFacts.
Import Guardrails Interaction Rag.

Lemma wp_ret {A : Type} w past (a : A) (Q : list Event -> A -> Prop) :
  Q [] a -> wp w past (Ret a) Q.
Proof. exact (fun H => H). Qed.

Lemma wp_enter {A : Type} w past m (p : Prog A) (Q : list Event -> A -> Prop) :
  wp w (past ++ [EvEnter m]) p (fun tr a => Q (EvEnter m :: tr) a) ->
  wp w past (Enter m p) Q.
Proof.
  unfold wp. simpl. destruct (run w (past ++ [EvEnter m]) p).
  exact (fun H => H).
Qed.

(** A call to the index: the world's answer is one of all answers. *)
Lemma wp_search {A : Type} w past q n (next : _ -> Prog A)
    (Q : list Event -> A -> Prop) :
  (forall r,
     r = similarity_search w past q n ->
     wp w (past ++ [EvSearch q n r]) (next r)
       (fun tr a => Q (EvSearch q n r :: tr) a)) ->
  wp w past (Search q n next) Q.
Proof.
  unfold wp. simpl. intros H.
  specialize (H (similarity_search w past q n) eq_refl).
  destruct (run w _ _). exact H.
Qed.

(** A call to the model. *)
Lemma wp_invoke {A : Type} w past prompt (next : _ -> Prog A)
    (Q : list Event -> A -> Prop) :
  (forall r,
     r = llm_invoke w past prompt ->
     wp w (past ++ [EvInvoke prompt r]) (next r)
       (fun tr a => Q (EvInvoke prompt r :: tr) a)) ->
  wp w past (Invoke prompt next) Q.
Proof.
  unfold wp. simpl. intros H.
  specialize (H (llm_invoke w past prompt) eq_refl).
  destruct (run w _ _). exact H.
Qed.

(** The run of a sequence is the run of its first part followed by the run
    of the rest after it. *)
Lemma run_pbind {A B : Type} w (p : Prog A) (f : A -> Prog B) : forall past,
  run w past (pbind p f) =
  (fst (run w past p)
     ++ fst (run w (past ++ fst (run w past p)) (f (snd (run w past p)))),
   snd (run w (past ++ fst (run w past p)) (f (snd (run w past p))))).
Proof.
  induction p as [a | m p IH | q n next IH | prompt next IH];
    intros past; simpl.
  - rewrite app_nil_r. now destruct (run w past (f a)).
  - rewrite IH. destruct (run w (past ++ [EvEnter m]) p) as [tr a]. simpl.
    now rewrite <- app_assoc.
  - rewrite IH. destruct (run w _ (next _)) as [tr a]. simpl.
    now rewrite <- app_assoc.
  - rewrite IH. destruct (run w _ (next _)) as [tr a]. simpl.
    now rewrite <- app_assoc.
Qed.

Lemma wp_pbind {A B : Type} w past (p : Prog A) (f : A -> Prog B)
    (Q : list Event -> B -> Prop) :
  wp w past p
    (fun tr1 a => wp w (past ++ tr1) (f a) (fun tr2 b => Q (tr1 ++ tr2) b)) ->
  wp w past (pbind p f) Q.
Proof. unfold wp. now rewrite run_pbind. Qed.

Lemma wp_bind {A B : Type} w past (x : M A) (f : A -> M B) m
    (Q : list Event -> Metrics * outcome B -> Prop) :
  wp w past (x m)
    (fun tr1 mo =>
       match snd mo with
       | Returned a =>
           wp w (past ++ tr1) (f a (fst mo)) (fun tr2 b => Q (tr1 ++ tr2) b)
       | Raised e => Q tr1 (fst mo, Raised e)
       end) ->
  wp w past (bind x f m) Q.
Proof.
  intros H. unfold bind. apply wp_pbind. unfold wp in *.
  destruct (run w past (x m)) as [tr1 [m1 [a | e]]]; simpl in *; [exact H|].
  now rewrite app_nil_r.
Qed.

Lemma wp_call {A : Type} w past (p : Prog A) m
    (Q : list Event -> Metrics * outcome A -> Prop) :
  wp w past p (fun tr a => Q tr (m, Returned a)) -> wp w past (call p m) Q.
Proof.
  intros H. unfold call. apply wp_pbind. unfold wp in *. simpl.
  now rewrite app_nil_r.
Qed.

Lemma wp_call_raising {A : Type} w past (p : Prog (outcome A)) m
    (Q : list Event -> Metrics * outcome A -> Prop) :
  wp w past p (fun tr o => Q tr (m, o)) -> wp w past (call_raising p m) Q.
Proof.
  intros H. unfold call_raising. apply wp_pbind. unfold wp in *. simpl.
  now rewrite app_nil_r.
Qed.

Lemma wp_screen {A : Type} w past (f : Metrics -> Metrics * A) m
    (Q : list Event -> Metrics * outcome A -> Prop) :
  Q [] (fst (f m), Returned (snd (f m))) -> wp w past (screen f m) Q.
Proof. exact (fun H => H). Qed.

Lemma wp_retM {A : Type} w past (a : A) m
    (Q : list Event -> Metrics * outcome A -> Prop) :
  Q [] (m, Returned a) -> wp w past (ret a m) Q.
Proof. exact (fun H => H). Qed.

(** Case analysis on what a step came back with. *)
Lemma case_outcome {A : Type} (x : outcome A) (P : A -> Prop)
    (P' : text -> Prop) :
  (forall a, x = Returned a -> P a) -> (forall e, x = Raised e -> P' e) ->
  match x with Returned a => P a | Raised e => P' e end.
Proof. destruct x; auto. Qed.

Lemma wp_outcome {A B : Type} w past (x : outcome A) (f : A -> Prog B) g
    (Q : list Event -> B -> Prop) :
  (forall a, x = Returned a -> wp w past (f a) Q) ->
  (forall e, x = Raised e -> wp w past (g e) Q) ->
  wp w past (match x with Returned a => f a | Raised e => g e end) Q.
Proof. destruct x; auto. Qed.

Lemma wp_if {B : Type} w past (b : bool) (p q : Prog B)
    (Q : list Event -> B -> Prop) :
  (b = true -> wp w past p Q) -> (b = false -> wp w past q Q) ->
  wp w past (if b then p else q) Q.
Proof. destruct b; auto. Qed.

Lemma wp_ifM {B : Type} w past (b : bool) (p q : M B) m
    (Q : list Event -> Metrics * outcome B -> Prop) :
  (b = true -> wp w past (p m) Q) -> (b = false -> wp w past (q m) Q) ->
  wp w past ((if b then p else q) m) Q.
Proof. destruct b; auto. Qed.

Lemma wp_pairM {A1 A2 B : Type} w past (x : A1 * A2) (f : A1 -> A2 -> M B) m
    (Q : list Event -> Metrics * outcome B -> Prop) :
  (forall a b, x = (a, b) -> wp w past (f a b m) Q) ->
  wp w past ((let '(a, b) := x in f a b) m) Q.
Proof. destruct x; auto. Qed.

Lemma wp_listM {A B : Type} w past (x : list A) (p : M B)
    (f : A -> list A -> M B) m
    (Q : list Event -> Metrics * outcome B -> Prop) :
  (x = [] -> wp w past (p m) Q) ->
  (forall a l, x = a :: l -> wp w past (f a l m) Q) ->
  wp w past ((match x with [] => p | a :: l => f a l end) m) Q.
Proof. destruct x; auto. Qed.

(** One step of symbolic execution of the pipeline.  The answers of the
    world stay arbitrary. *)
Ltac wp_step :=
  cbn [fst snd negb];
  lazymatch goal with
  | |- wp _ _ (bind _ _ _) _ => apply wp_bind
  | |- wp _ _ (call _ _) _ => apply wp_call
  | |- wp _ _ (call_raising _ _) _ => apply wp_call_raising
  | |- wp _ _ (screen _ _) _ => apply wp_screen
  | |- wp _ _ (ret _ _) _ => apply wp_retM
  | |- wp _ _ (Ret _) _ => apply wp_ret
  | |- wp _ _ (Enter _ _) _ => apply wp_enter
  | |- wp _ _ (Search _ _ _) _ => apply wp_search; intros ? _
  | |- wp _ _ (Invoke _ _) _ => apply wp_invoke; intros ? _
  | |- wp _ _ (match ?x with Returned _ => _ | Raised _ => _ end) _ =>
      apply wp_outcome; intros ? ?
  | |- wp _ _ ((match ?x with nil => _ | cons _ _ => _ end) _) _ =>
      apply wp_listM; [intros ? | intros ? ? ?]
  | |- wp _ _ ((match ?x with pair _ _ => _ end) _) _ =>
      apply wp_pairM; intros ? ? ?
  | |- wp _ _ (if ?b then _ else _) _ => apply wp_if; intros ?
  | |- wp _ _ ((if ?b then _ else _) _) _ => apply wp_ifM; intros ?
  | |- wp _ _ (_retrieve_primary _ _) _ => unfold _retrieve_primary
  | |- wp _ _ (_retrieve_secondary _ _) _ => unfold _retrieve_secondary
  | |- wp _ _ (_retrieve_tertiary _ _) _ => unfold _retrieve_tertiary
  | |- wp _ _ (_evaluate_context _ _ _) _ => unfold _evaluate_context
  | |- wp _ _ (_refine_query _ _ _) _ => unfold _refine_query
  | |- wp _ _ (fallback _ _ _ _ _) _ => unfold fallback
  | |- wp _ _ (retrieve_and_answer _ _ _ _ _) _ => unfold retrieve_and_answer
  | |- match ?x with Returned _ => _ | Raised _ => _ end =>
      apply case_outcome; intros ? ?
  end.

Ltac wp_run := repeat wp_step; cbn [fst snd app].

End RunFacts.

(* ================================================================= *)
(** ** The paths of the pipeline *)

Module PathFacts.
Import Guardrails Interaction Rag Spec RunFacts GuardrailFacts.

(** The output check moves the counter of output checks and nothing else. *)
Lemma validate_output_metrics (m : Metrics) (t : text) :
  fst (validate_output m t) = add_to total_output_checks 1 m.
Proof.
  unfold validate_output.
  repeat match goal with
    | |- context [if ?b then _ else _] => destruct b
    end; reflexivity.
Qed.

(** The grading raises only on scores it cannot add or divide, or on a reply
    that is no dictionary. *)
Lemma evaluation_of_raises (scores : json) (e : text) :
  evaluation_of scores = Raised e -> e = TypeError \/ e = AttributeError.
Proof.
  unfold evaluation_of. destruct scores as [fields|]; [|intros [= <-]; now right].
  destruct (average _ _ _) as [avg | e'] eqn:E.
  - destruct (grade avg); discriminate.
  - intros [= <-]. left. unfold average in E.
    repeat match type of E with
      | match ?x with _ => _ end = _ => destruct x eqn:?; try discriminate
      end.
    all: unfold py_add, py_div3 in *;
      repeat match goal with
        | H : match ?x with _ => _ end = _ |- _ => destruct x; try discriminate
        end; congruence.
Qed.

(** A grading call that raises is graded with the fallback scores, which
    give an evaluation. *)
Lemma evaluation_of_failed_call (json_loads : text -> option json) (e : text) :
  exists ev, evaluation_of (scores_of json_loads (Raised e)) = Returned ev.
Proof. eexists. reflexivity. Qed.

Ltac climb :=
  first [ apply climbed_primary
        | apply climbed_secondary; first [assumption | reflexivity]
        | apply climbed_tertiary; first [assumption | reflexivity] ].

Ltac settle := first [exact I | assumption].

Ltac grading_failed g :=
  apply (path_grading_failed _ g);
  [climb | eapply evaluation_of_raises; eassumption].

Ltac path_leaf :=
  first
    [ apply path_no_results
    | grading_failed at_primary
    | grading_failed at_secondary
    | grading_failed at_tertiary
    | apply path_refine_failed; first [assumption | reflexivity]
    | eapply (path_generation_failed _ at_primary); [climb | settle]
    | eapply (path_generation_failed _ at_secondary); [climb | settle]
    | eapply (path_generation_failed _ at_tertiary); [climb | settle]
    | eapply (path_answered _ at_primary); [climb | settle | reflexivity ..]
    | eapply (path_answered _ at_secondary); [climb | settle | reflexivity ..]
    | eapply (path_answered _ at_tertiary); [climb | settle | reflexivity ..] ].

(** The reply to a grading that raised was not itself an error. *)
Ltac grading_reply :=
  try match goal with
    | H : evaluation_of (scores_of ?jl ?r) = Raised _ |- _ =>
        let x := fresh "x" in
        destruct r as [? | x];
        [ | destruct (evaluation_of_failed_call jl x) as [? ?]; congruence ]
    end.

Ltac path_leaves Q :=
  repeat match goal with
    | H : (_, _) = (_, _) |- _ => injection H as ? ?
    end;
  subst; subst Q; cbv beta;
  try discriminate;
  try match goal with
    | H : needs_correction no_context = false |- _ => discriminate H
    end;
  grading_reply;
  cbn [fst snd app steps verdicts failed_last rev];
  rewrite ?validate_output_metrics;
  repeat match goal with
    | H : evaluation_of _ = _ |- _ => rewrite H; revert H
    end;
  intros; path_leaf.

(** Every run of steps 2 to 6 of [query] is one of the paths. *)
Lemma retrieve_and_answer_path json_loads py_str vectorstore w past m1 safe_query :
  wp w past (retrieve_and_answer json_loads py_str vectorstore safe_query m1)
    (fun tr res =>
       path m1 (steps tr) (verdicts json_loads tr) (failed_last tr)
         (fst res) (snd res)).
Proof.
  match goal with |- wp _ _ _ ?q => set (Q := q) end.
  destruct vectorstore; wp_run; path_leaves Q.
Qed.

End PathFacts.

(* ================================================================= *)
(** ** The runs of [query] *)

Module QueryFacts.
Import Guardrails Interaction Rag Spec RunFacts GuardrailFacts PathFacts.

Section WithLibrary.

Variable json_loads : text -> option json.
Variable py_str : jvalue -> text.
Variable vectorstore : bool.


(** A blocked input ends the query at the gate. *)
Lemma run_query_blocked w past m q c :
  first_category q c ->
  run_query json_loads py_str vectorstore w past m q =
  ([], (add_to (counter c) 1 (add_to total_input_checks 1 m),
        Returned (blocked_response (blocked_verdict c)))).
Proof.
  intros Hc. unfold run_query, query, bind, screen. cbn [pbind fst snd].
  rewrite (validate_input_blocked m q c Hc). reflexivity.
Qed.

(** A clean input goes on to the retrieval with its sanitized text. *)
Lemma run_query_clean w past m q :
  clean q ->
  run_query json_loads py_str vectorstore w past m q =
  run w past (retrieve_and_answer json_loads py_str vectorstore (safe_query_of q) (fst (validate_input m q))).
Proof.
  intros Hc. unfold run_query, query, bind, screen. cbn [pbind fst snd].
  rewrite (validate_input_clean m q Hc). reflexivity.
Qed.

(** The runs of a clean query are paths. *)
Lemma query_path w past m q :
  clean q ->
  let r := run_query json_loads py_str vectorstore w past m q in
  path (fst (validate_input m q))
    (steps (trace_of r)) (verdicts json_loads (trace_of r))
    (failed_last (trace_of r)) (metrics_of r) (outcome_of r).
Proof.
  intros Hc r. subst r. rewrite (run_query_clean w past m q Hc).
  apply (retrieve_and_answer_path json_loads py_str vectorstore w past).
Qed.


(** A primary retrieval without documents ends the query. *)
Lemma run_no_results w past m1 sq :
  fst (snd (run w past (_retrieve_primary vectorstore sq))) = [] ->
  run w past (retrieve_and_answer json_loads py_str vectorstore sq m1) =
  (fst (run w past (_retrieve_primary vectorstore sq)),
   (m1, Returned no_results_response)).
Proof.
  intros Hdocs. unfold retrieve_and_answer, bind, call.
  rewrite !run_pbind.
  destruct (run w past (_retrieve_primary vectorstore sq)) as [tr [docs ctx]].
  cbn [fst snd] in *. subst docs. cbn [run fst snd pbind].
  now rewrite !app_nil_r.
Qed.


(** C10.  A query blocked at the input gate, and a query whose primary
    retrieval has no documents, come back with the retrieval level
    FALLBACK, which is none of PRIMARY, SECONDARY and TERTIARY, and with no
    sources; the blocked one also has the quality POOR and the confidence
    N/A. *)
Theorem gate_exits_report_fallback w past m q :
  (exists c, mentions q c) \/
  (clean q /\ primary_docs vectorstore w past q = []) ->
  exists resp,
    outcome_of (run_query json_loads py_str vectorstore w past m q)
      = Returned resp /\
    retrieval_level resp = FALLBACK /\
    ~ In FALLBACK [PRIMARY; SECONDARY; TERTIARY] /\
    sources resp = [] /\
    ((exists c, mentions q c) ->
     context_quality resp = POOR /\ confidence resp = str "N/A").
Proof.
  assert (Hnot : ~ In FALLBACK [PRIMARY; SECONDARY; TERTIARY])
    by (simpl; intuition discriminate).
  intros [[c0 Hm] | [Hclean Hdocs]].
  - destruct (mentions_first q c0 Hm) as (c & Hc & _).
    exists (blocked_response (blocked_verdict c)).
    rewrite (run_query_blocked w past m q c Hc).
    split; [reflexivity |]. split; [reflexivity |]. split; [exact Hnot |].
    split; [reflexivity |]. intros _. split; reflexivity.
  - exists no_results_response.
    rewrite (run_query_clean w past m q Hclean).
    rewrite (run_no_results w past _ _ Hdocs).
    split; [reflexivity |]. split; [reflexivity |]. split; [exact Hnot |].
    split; [reflexivity |]. intros [c Hm]. destruct (Hclean c Hm).
Qed.


(** The steps before a blocked or finished query, by cases. *)
Lemma steps_cases w past m q :
  let r := run_query json_loads py_str vectorstore w past m q in
  steps (trace_of r) = [] \/
  steps (trace_of r) = [retrieve PRIMARY] \/
  steps (trace_of r) =
    [retrieve PRIMARY; evaluate_context; retrieve SECONDARY;
     evaluate_context; refine_query] \/
  exists g, steps (trace_of r) = steps_to g \/
            steps (trace_of r) = steps_to g ++ [generate_response].
Proof.
  intros r. subst r. destruct (clean_or_blocked q) as [Hclean | [c Hc]].
  - pose proof (query_path w past m q Hclean) as Hp. cbv zeta in Hp.
    inversion Hp; eauto 6.
  - rewrite (run_query_blocked w past m q c Hc). now left.
Qed.

Ltac split_steps H :=
  repeat match type of H with
    | ?l ++ _ :: _ = _ =>
        destruct l; cbn [app] in H;
        [ try discriminate H; try (inversion H; subst)
        | first [ discriminate H | injection H as ? H ] ]
    end.

(** C3.  In every run of a query the retrieval levels attempted are a
    prefix of PRIMARY, SECONDARY, TERTIARY, so at most three and each one
    after the previous; what follows the tertiary retrieval is at most its
    one evaluation and the generation; and a response that comes back from
    a run that reached the tertiary retrieval has the level TERTIARY,
    whatever that evaluation said. *)
Theorem escalation_follows_the_ladder w past m q :
  let r := run_query json_loads py_str vectorstore w past m q in
  let taken := steps (trace_of r) in
  is_prefix (levels taken) [PRIMARY; SECONDARY; TERTIARY] /\
  length (levels taken) <= 3 /\
  (forall before after,
     taken = before ++ retrieve TERTIARY :: after ->
     is_prefix after [evaluate_context; generate_response]) /\
  (forall resp,
     outcome_of r = Returned resp -> In (retrieve TERTIARY) taken ->
     retrieval_level resp = TERTIARY).
Proof.
  intros r taken.
  assert (Hlast : forall resp,
            outcome_of r = Returned resp -> In (retrieve TERTIARY) taken ->
            retrieval_level resp = TERTIARY).
  { subst taken r. intros resp. destruct (clean_or_blocked q) as [Hclean | [c Hc]].
    - pose proof (query_path w past m q Hclean) as Hp. cbv zeta in Hp.
      intros Hout. rewrite Hout in Hp.
      inversion Hp as [ | | | | g vs ev resp' Hcl Hse Hlv Hco Hgp Hq Hcf Hst];
        subst.
      + simpl. intuition discriminate.
      + rewrite Hlv. destruct g; simpl; intuition discriminate.
    - rewrite (run_query_blocked w past m q c Hc). simpl. intuition. }
  split; [|split; [|split; [|exact Hlast]]].
  - subst taken r.
    destruct (steps_cases w past m q) as [H | [H | [H | [g [H | H]]]]];
      cbv zeta in H; rewrite H; try destruct g; cbn [steps_to app levels];
      eexists; reflexivity.
  - subst taken r.
    destruct (steps_cases w past m q) as [H | [H | [H | [g [H | H]]]]];
      cbv zeta in H; rewrite H; try destruct g; simpl; lia.
  - subst taken r. intros before after Heq.
    destruct (steps_cases w past m q) as [H | [H | [H | [g [H | H]]]]];
      cbv zeta in H; rewrite H in Heq; try destruct g;
      cbn [steps_to app] in Heq; symmetry in Heq;
      split_steps Heq; eexists; reflexivity.
Qed.

(** C4.  The response of a query has [was_corrected = true] exactly when
    the run reached the tertiary retrieval, which is exactly when its level
    is TERTIARY and exactly when the primary and the secondary evaluation
    both asked for correction, whatever the tertiary evaluation says; in
    every other response it is false. *)
Theorem was_corrected_iff_tertiary w past m q resp :
  let r := run_query json_loads py_str vectorstore w past m q in
  outcome_of r = Returned resp ->
  (was_corrected resp = true <-> In (retrieve TERTIARY) (steps (trace_of r))) /\
  (was_corrected resp = true <-> retrieval_level resp = TERTIARY) /\
  (was_corrected resp = true <->
   exists e1 e2 v3,
     verdicts json_loads (trace_of r) = [Returned e1; Returned e2; v3] /\
     needs_correction e1 = true /\ needs_correction e2 = true) /\
  (was_corrected resp = false \/ was_corrected resp = true).
Proof.
  intros r Hout. subst r.
  assert (Hbool : was_corrected resp = false \/ was_corrected resp = true)
    by (destruct (was_corrected resp); auto).
  destruct (clean_or_blocked q) as [Hclean | [c Hc]].
  - pose proof (query_path w past m q Hclean) as Hp. cbv zeta in Hp.
    rewrite Hout in Hp.
    inversion Hp as [ | | | | g vs ev resp' Hcl Hse Hlv Hco Hgp Hq Hcf Hst Hvs];
      subst.
    + simpl. repeat split; auto; try (intros Hx; discriminate Hx);
        try intuition discriminate.
      intros (e1 & e2 & v3 & Hx & _). discriminate Hx.
    + rewrite Hco, Hlv.
      inversion Hcl; subst; cbn [steps_to app is_tertiary level_of In].
      * repeat split; auto; try (intros Hx; discriminate Hx);
          try intuition discriminate.
        intros (e1 & e2 & v3 & Hx & _). discriminate Hx.
      * repeat split; auto; try (intros Hx; discriminate Hx);
          try intuition discriminate.
        intros (e1' & e2 & v3 & Hx & _). discriminate Hx.
      * repeat split; auto.
        -- intros _. do 5 right. now left.
        -- intros _. eauto 8.
  - rewrite (run_query_blocked w past m q c Hc) in *.
    injection Hout as <-. simpl.
    repeat split; auto; try (intros Hx; discriminate Hx);
      try intuition discriminate.
    intros (e1 & e2 & v3 & Hx & _). discriminate Hx.
Qed.




End WithLibrary.

Lemma story_question_clean : clean Samples.story_question.
Proof. intros c. apply checks_false. destruct c; vm_compute; reflexivity. Qed.


Lemma gate_exits_report_fallback_witness :
  let q := Samples.story_question in
  let r := run_query Samples.sample_json_loads Samples.sample_py_str true
             Samples.empty_index [] initial_metrics q in
  ((exists c, mentions q c) \/
   (clean q /\ primary_docs true Samples.empty_index [] q = [])) /\
  exists resp,
    outcome_of r = Returned resp /\
    retrieval_level resp = FALLBACK /\
    ~ In FALLBACK [PRIMARY; SECONDARY; TERTIARY] /\
    sources resp = [] /\
    ((exists c, mentions q c) ->
     context_quality resp = POOR /\ confidence resp = str "N/A").
Proof.
  intros q r.
  assert (H : (exists c, mentions q c) \/
              (clean q /\ primary_docs true Samples.empty_index [] q = [])).
  { right. split; [exact story_question_clean | vm_compute; reflexivity]. }
  split; [exact H |].
  exact (gate_exits_report_fallback Samples.sample_json_loads
           Samples.sample_py_str true Samples.empty_index [] initial_metrics
           q H).
Defined.



Lemma was_corrected_iff_tertiary_witness :
  let r := run_query Samples.sample_json_loads Samples.sample_py_str true
             Samples.vague_model [] initial_metrics Samples.story_question in
  exists resp,
    outcome_of r = Returned resp /\
    was_corrected resp = true /\
    (was_corrected resp = true <-> In (retrieve TERTIARY) (steps (trace_of r))) /\
    (was_corrected resp = true <-> retrieval_level resp = TERTIARY) /\
    (was_corrected resp = true <->
     exists e1 e2 v3,
       verdicts Samples.sample_json_loads (trace_of r)
         = [Returned e1; Returned e2; v3] /\
       needs_correction e1 = true /\ needs_correction e2 = true) /\
    (was_corrected resp = false \/ was_corrected resp = true).
Proof.
  intros r.
  set (resp := match outcome_of r with
               | Returned x => x
               | Raised _ => no_results_response
               end).
  assert (Hout : outcome_of r = Returned resp) by (vm_compute; reflexivity).
  exists resp. split; [exact Hout |]. split; [vm_compute; reflexivity |].
  exact (was_corrected_iff_tertiary Samples.sample_json_loads
           Samples.sample_py_str true Samples.vague_model [] initial_metrics
           Samples.story_question resp Hout).
Defined.



End QueryFacts.

(* ================================================================= *)
(** ** The verdicts and the counters of the safety checks *)

Module SafetyFacts.
Import Guardrails Interaction Rag Spec GuardrailFacts PathFacts QueryFacts.



(** The input check blocks a text exactly when the text mentions a
    category. *)
Lemma is_blocked_iff (t : text) :
  is_blocked t = true <-> exists c, mentions t c.
Proof.
  unfold is_blocked. rewrite existsb_exists. split.
  - intros (c & _ & Hc). exists c. now apply checks_iff.
  - intros (c & Hc). exists c. split; [destruct c; simpl; tauto |].
    now apply checks_iff.
Qed.







End SafetyFacts.

(* ================================================================= *)
(** ** What the PII patterns match *)

Module RegexFacts.
Import Regex Guardrails MaskSpec TextFacts.

Lemma greedy_reads cls lo hi k : forall s n prev m,
  greedy cls lo hi k n prev s = Some m ->
  exists m1 m2 s2 prev',
    s = m1 ++ s2 /\ m = m1 ++ m2 /\
    Forall (fun c => icase cls c = true) m1 /\
    lo <= n + length m1 /\ k prev' s2 = Some m2.
Proof.
  assert (Hstop : forall s n prev m,
            (if lo <=? n then k prev s else None) = Some m ->
            exists m1 m2 s2 prev',
              s = m1 ++ s2 /\ m = m1 ++ m2 /\
              Forall (fun c => icase cls c = true) m1 /\
              lo <= n + length m1 /\ k prev' s2 = Some m2).
  { intros s n prev m H. destruct (lo <=? n) eqn:E; [|discriminate].
    apply Nat.leb_le in E. exists [], m, s, prev. simpl.
    repeat split; auto; lia. }
  induction s as [|c s IH]; intros n prev m H; simpl in H.
  - now apply Hstop in H.
  - destruct (below hi n && icase cls c) eqn:Hc; [|now apply Hstop in H].
    destruct (greedy cls lo hi k (S n) (Some c) s) as [m'|] eqn:Hrec;
      [|now apply Hstop in H].
    injection H as <-.
    destruct (IH _ _ _ Hrec) as (m1 & m2 & s2 & prev' & -> & -> & Hall & Hlo & Hk).
    apply andb_true_iff in Hc. destruct Hc as [_ Hc].
    exists (c :: m1), m2, s2, prev'. simpl. repeat split; auto. lia.
Qed.

Lemma startswith_same_length (a b : text) :
  startswith a b = true -> length a = length b -> a = b.
Proof.
  intros [suf ->]%startswith_iff Hlen. rewrite length_app in Hlen.
  destruct suf; [now rewrite app_nil_r | simpl in Hlen; lia].
Qed.

Lemma istartswith_lower (s lit : text) :
  istartswith s lit = true ->
  lower (firstn (length lit) s) = lower lit.
Proof.
  unfold istartswith. intros [H Hlen]%andb_true_iff. apply Nat.leb_le in Hlen.
  apply startswith_same_length; [exact H|].
  unfold lower. rewrite !length_map, length_firstn. lia.
Qed.

Lemma first_alt_reads k : forall alts prev s m,
  first_alt alts k prev s = Some m ->
  exists lit m1 m2 s2 prev',
    In lit alts /\ s = m1 ++ s2 /\ m = m1 ++ m2 /\
    lower m1 = lower lit /\ k prev' s2 = Some m2.
Proof.
  induction alts as [|lit alts IH]; intros prev s m H; simpl in H;
    [discriminate|].
  assert (Hnext : first_alt alts k prev s = Some m ->
            exists lit0 m1 m2 s2 prev',
              In lit0 (lit :: alts) /\ s = m1 ++ s2 /\ m = m1 ++ m2 /\
              lower m1 = lower lit0 /\ k prev' s2 = Some m2).
  { intros H'. destruct (IH _ _ _ H') as (l0 & m1 & m2 & s2 & p' & Hin & Hrest).
    exists l0, m1, m2, s2, p'. split; [now right | exact Hrest]. }
  destruct (istartswith s lit) eqn:Hs; [|now apply Hnext].
  destruct (k _ (skipn (length lit) s)) as [m'|] eqn:Hk; [|now apply Hnext].
  injection H as <-.
  exists lit, (firstn (length lit) s), m', (skipn (length lit) s),
    (last_of prev (firstn (length lit) s)).
  split; [now left|]. split; [now rewrite firstn_skipn|].
  split; [reflexivity|]. split; [now apply istartswith_lower | exact Hk].
Qed.

Lemma match_at_reads : forall p prev s m,
  match_at p prev s = Some m -> reads p m s.
Proof.
  induction p as [|a p IH]; intros prev s m H; simpl in H.
  - now injection H as <-.
  - destruct a as [|cls lo hi|alts]; simpl.
    + destruct (at_boundary prev s); [eauto | discriminate].
    + destruct (greedy_reads _ _ _ _ _ _ _ _ H)
        as (m1 & m2 & s2 & prev' & Hs & Hm & Hall & Hlo & Hk).
      exists m1, m2, s2. repeat split; eauto.
    + destruct (first_alt_reads _ _ _ _ _ H)
        as (lit & m1 & m2 & s2 & prev' & Hin & Hs & Hm & Hl & Hk).
      exists lit, m1, m2, s2. repeat split; eauto.
Qed.

Lemma reads_prefix : forall p m s, reads p m s -> exists rest, s = m ++ rest.
Proof.
  induction p as [|a p IH]; intros m s H; simpl in H.
  - subst. now exists s.
  - destruct a as [|cls lo hi|alts].
    + eauto.
    + destruct H as (m1 & m2 & s2 & -> & -> & _ & _ & H).
      destruct (IH _ _ H) as [rest ->]. exists rest. now rewrite app_assoc.
    + destruct H as (lit & m1 & m2 & s2 & _ & -> & -> & _ & H).
      destruct (IH _ _ H) as [rest ->]. exists rest. now rewrite app_assoc.
Qed.

Lemma lower_in (m lit : text) (c : ascii) :
  lower m = lower lit -> In c m ->
  existsb (fun d => ascii_eqb (lower_char c) (lower_char d)) lit = true.
Proof.
  intros Heq Hin. apply existsb_exists.
  assert (Hl : In (lower_char c) (lower lit)).
  { rewrite <- Heq. unfold lower. now apply in_map. }
  unfold lower in Hl. apply in_map_iff in Hl. destruct Hl as (d & Hd & Hind).
  exists d. split; [exact Hind|]. apply ascii_eqb_eq. now symmetry.
Qed.

Lemma reads_accepts : forall p m s,
  reads p m s -> Forall (fun c => accepts p c = true) m.
Proof.
  induction p as [|a p IH]; intros m s H; simpl in H.
  - subst. constructor.
  - assert (Hweak : forall m', Forall (fun c => accepts p c = true) m' ->
                      Forall (fun c => accepts (a :: p) c = true) m').
    { intros m'. apply Forall_impl. intros c Hc. unfold accepts in *. simpl.
      rewrite Hc. apply orb_true_r. }
    destruct a as [|cls lo hi|alts].
    + eauto.
    + destruct H as (m1 & m2 & s2 & _ & -> & Hall & _ & H).
      apply Forall_app. split; [|eauto].
      revert Hall. apply Forall_impl. intros c Hc. unfold accepts. simpl.
      now rewrite Hc.
    + destruct H as (lit & m1 & m2 & s2 & Hin & _ & -> & Hl & H).
      apply Forall_app. split; [|eauto].
      apply Forall_forall. intros c Hc. unfold accepts. simpl.
      apply orb_true_iff. left. apply existsb_exists. exists lit.
      split; [exact Hin|]. eapply lower_in; eauto.
Qed.

Lemma all_ascii_complete (c : ascii) : In c all_ascii.
Proof.
  unfold all_ascii. rewrite <- (ascii_nat_embedding c). apply in_map.
  apply in_seq. pose proof (nat_ascii_bounded c). lia.
Qed.

Lemma reads_marking : forall p m s,
  existsb marking p = true -> reads p m s ->
  exists c, In c m /\ key_char c = true.
Proof.
  induction p as [|a p IH]; intros m s Hmark H; simpl in H;
    cbn [existsb] in Hmark; [discriminate|].
  apply orb_true_iff in Hmark.
  destruct a as [|cls lo hi|alts].
  - destruct Hmark as [Hm|Hm]; [discriminate | eauto].
  - destruct H as (m1 & m2 & s2 & _ & -> & Hall & Hlo & H).
    destruct Hmark as [Hm|Hm].
    + unfold marking in Hm. apply andb_true_iff in Hm.
      destruct Hm as [Hone Himp].
      apply Nat.leb_le in Hone. destruct m1 as [|c m1]; [simpl in Hlo; lia|].
      exists c. split; [now left|].
      rewrite forallb_forall in Himp. specialize (Himp c (all_ascii_complete c)).
      inversion Hall; subst. rewrite H2 in Himp. exact Himp.
    + destruct (IH _ _ Hm H) as (c & Hin & Hk). exists c.
      split; [apply in_or_app; now right | exact Hk].
  - destruct H as (lit & m1 & m2 & s2 & _ & _ & -> & _ & H).
    destruct Hmark as [Hm|Hm]; [discriminate|].
    destruct (IH _ _ Hm H) as (c & Hin & Hk). exists c.
    split; [apply in_or_app; now right | exact Hk].
Qed.

Lemma scan_inv p : forall s prev skip m,
  In m (scan p prev s skip) ->
  exists pre prev' s', s = pre ++ s' /\ match_at p prev' s' = Some m.
Proof.
  induction s as [|c s IH]; intros prev skip m H; simpl in H.
  - destruct skip; [|destruct H].
    destruct (match_at p prev []) as [m'|] eqn:E; [|destruct H].
    destruct H as [<-|[]]. exists [], prev, []. auto.
  - assert (Hnext : forall prev0 k, In m (scan p prev0 s k) ->
              exists pre prev' s', c :: s = pre ++ s' /\
                                   match_at p prev' s' = Some m).
    { intros prev0 k H'. destruct (IH _ _ _ H') as (pre & prev' & s' & -> & Hm).
      exists (c :: pre), prev', s'. auto. }
    destruct skip; [|eauto].
    destruct (match_at p prev (c :: s)) as [m'|] eqn:E; [|eauto].
    destruct H as [<-|H]; [|eauto].
    exists [], prev, (c :: s). auto.
Qed.

(** The matches of a pattern that is [pattern_ok] are substrings of the text
    and are marked. *)
Lemma finditer_marked p t m :
  pattern_ok p = true -> In m (finditer p t) -> marked m /\ occurs m t.
Proof.
  unfold pattern_ok, finditer. intros Hok Hin.
  apply andb_true_iff in Hok. destruct Hok as [Hok Hmark].
  apply andb_true_iff in Hok. destruct Hok as [Hopen Hclose].
  apply negb_true_iff in Hopen, Hclose.
  destruct (scan_inv _ _ _ _ _ Hin) as (pre & prev' & s' & -> & Hm).
  apply match_at_reads in Hm.
  pose proof (reads_accepts _ _ _ Hm) as Hacc. rewrite Forall_forall in Hacc.
  destruct (reads_prefix _ _ _ Hm) as [rest ->].
  split; [|exists pre, rest; reflexivity].
  split; [|split].
  - intros Hb. apply Hacc in Hb. congruence.
  - intros Hb. apply Hacc in Hb. congruence.
  - eapply reads_marking; eauto.
Qed.

Lemma pii_patterns_ok :
  Forall (fun tp => pattern_ok (snd tp) = true) pii_patterns.
Proof. repeat constructor. Qed.

End RegexFacts.

(* ================================================================= *)
(** ** Replacing in a text *)

Module ReplaceFacts.
Import Regex Guardrails MaskSpec TextFacts.

Lemma replace_scan_skip (old new : text) : forall s k,
  replace_scan old new s k = replace_scan old new (skipn k s) 0.
Proof.
  induction s as [|c s IH]; intros k.
  - now destruct k.
  - destruct k as [|k]; [reflexivity|]. simpl. apply IH.
Qed.

Lemma replaced_scan (old new : text) :
  old <> [] ->
  forall n s, length s <= n -> Replaced old new s (replace_scan old new s 0).
Proof.
  intros Hne. induction n as [|n IH]; intros s Hn.
  - destruct s; [constructor | simpl in Hn; lia].
  - destruct s as [|c s]; [constructor|].
    cbn [replace_scan]. destruct (startswith (c :: s) old) eqn:E.
    + apply startswith_iff in E. destruct E as [rest E].
      rewrite replace_scan_skip.
      assert (Hrest : skipn (length old - 1) s = rest).
      { destruct old as [|o old']; [congruence|].
        injection E as _ ->. simpl. rewrite Nat.sub_0_r.
        rewrite skipn_app, skipn_all, Nat.sub_diag. reflexivity. }
      rewrite Hrest, E. apply replaced_here. apply IH.
      assert (length (c :: s) = length (old ++ rest)) by now rewrite E.
      rewrite length_app in H. simpl in H, Hn.
      destruct old; [congruence | simpl in H; lia].
    + apply replaced_next; [exact E|]. apply IH. simpl in Hn. lia.
Qed.

Lemma replace_Replaced (old new s : text) :
  old <> [] -> Replaced old new s (replace s old new).
Proof.
  intros Hne. unfold replace. destruct old as [|o old'] eqn:E; [congruence|].
  apply (replaced_scan _ _ Hne (length s)). lia.
Qed.


Lemma occurs_prefix (m s : text) : (exists y, s = m ++ y) -> occurs m s.
Proof. intros [y ->]. exists [], y. reflexivity. Qed.

(** An occurrence in a concatenation lies in one of the two parts or runs
    over the joint. *)
Lemma occurs_app_inv (m a b : text) :
  occurs m (a ++ b) ->
  occurs m a \/ occurs m b \/
  exists m1 m2,
    m = m1 ++ m2 /\ m1 <> [] /\ m2 <> [] /\
    (exists pre, a = pre ++ m1) /\ (exists suf, b = m2 ++ suf).
Proof.
  intros (pre & suf & H).
  apply app_eq_app in H. destruct H as [l [[Ha Hb] | [Hpre Hb]]].
  - apply app_eq_app in Hb.
    destruct Hb as [l' [[Hm Hb] | [Hl Hsuf]]].
    + destruct l as [|x l].
      * right. left. simpl in Hm. subst m. exists [], suf. now subst.
      * destruct l' as [|y l'].
        -- left. rewrite app_nil_r in Hm. subst. exists pre, []. now rewrite app_nil_r.
        -- right. right. exists (x :: l), (y :: l').
           repeat split; try discriminate; eauto.
    + left. subst. exists pre, l'. reflexivity.
  - right. left. subst. exists l, suf. reflexivity.
Qed.

Lemma last_in_suffix (l pre m1 : text) (x : ascii) :
  l ++ [x] = pre ++ m1 -> m1 <> [] -> In x m1.
Proof.
  intros H Hne. destruct (exists_last Hne) as (m1' & y & ->).
  rewrite app_assoc in H. apply app_inj_tail in H. destruct H as [_ ->].
  apply in_or_app. right. now left.
Qed.


Lemma marked_not_empty (m : text) : marked m -> m <> [].
Proof. intros (_ & _ & c & Hin & _) ->. destruct Hin. Qed.


Section Replaced.

Variables old new : text.



Hypothesis new_token : token new.



Hypothesis old_marked : marked old.



End Replaced.

End ReplaceFacts.

(* ================================================================= *)
(** ** Masking personal data *)

Module MaskFacts.
Import Text Regex Guardrails Spec MaskSpec.
Import TextFacts GuardrailFacts SafetyFacts RegexFacts ReplaceFacts.

Lemma mask_matches_fold (pii_type : text) : forall matches masked detected,
  mask_matches pii_type matches (masked, detected) =
  (fold_left mask_step (map (fun value => (pii_type, value)) matches) masked,
   detected ++ map (fun value => (pii_type, value)) matches).
Proof.
  unfold mask_matches.
  induction matches as [|v vs IH]; intros masked detected; simpl.
  - now rewrite app_nil_r.
  - rewrite IH. rewrite <- app_assoc. reflexivity.
Qed.

Lemma mask_with_fold (t : text) : forall patterns masked detected,
  mask_with patterns t (masked, detected) =
  (fold_left mask_step (items patterns t) masked,
   detected ++ items patterns t).
Proof.
  unfold mask_with.
  induction patterns as [|[pii_type p] ps IH]; intros masked detected; simpl.
  - now rewrite app_nil_r.
  - rewrite mask_matches_fold, IH. unfold items_of. simpl.
    rewrite fold_left_app, <- app_assoc. reflexivity.
Qed.

Lemma mask_pii_fold (t : text) :
  _mask_pii t =
  (fold_left mask_step (items pii_patterns t) t, items pii_patterns t).
Proof. unfold _mask_pii. now rewrite mask_with_fold. Qed.

Lemma token_check (t body : text) :
  t = "["%char :: body ++ ["]"%char] ->
  forallb (fun c => negb (key_char c)) t = true ->
  token t.
Proof.
  intros Hb Hall. split; [now exists body|].
  apply Forall_forall. intros c Hc. rewrite forallb_forall in Hall.
  apply negb_true_iff. now apply Hall.
Qed.

Lemma placeholders_are_tokens :
  Forall (fun tp => token (placeholder (fst tp))) pii_patterns.
Proof.
  repeat constructor.
  - now apply (token_check _ (str "EMAIL_PROTECTED")).
  - now apply (token_check _ (str "PHONE_PROTECTED")).
  - now apply (token_check _ (str "ADDRESS_PROTECTED")).
  - now apply (token_check _ (str "AADHAAR_PROTECTED")).
Qed.

Lemma in_items patterns t item :
  In item (items patterns t) <->
  exists p, In (fst item, p) patterns /\ In (snd item) (finditer p t).
Proof.
  unfold items, items_of. rewrite in_flat_map. split.
  - intros ([pii_type p] & Hin & Hit). apply in_map_iff in Hit.
    destruct Hit as (v & <- & Hv). exists p. auto.
  - intros (p & Hin & Hv). exists (fst item, p). split; [exact Hin|].
    apply in_map_iff. exists (snd item). split; [now destruct item | exact Hv].
Qed.

(** Every item that [_mask_pii] finds is a marked substring of the text,
    and its placeholder is a token. *)
Lemma items_sound t item :
  In item (items pii_patterns t) ->
  sound_item item /\ occurs (snd item) t.
Proof.
  intros Hin. apply in_items in Hin. destruct Hin as (p & Hp & Hv).
  pose proof pii_patterns_ok as Hok. pose proof placeholders_are_tokens as Htok.
  rewrite Forall_forall in Hok, Htok.
  specialize (Hok _ Hp). specialize (Htok _ Hp). simpl in Hok, Htok.
  destruct (finditer_marked _ _ _ Hok Hv) as [Hm Ho].
  split; [split|]; assumption.
Qed.

Lemma step_Replaced s item :
  sound_item item ->
  Replaced (snd item) (placeholder (fst item)) s (mask_step s item).
Proof.
  intros [Hm _]. apply replace_Replaced. now apply marked_not_empty.
Qed.





Lemma items_pii (t : text) :
  items pii_patterns t =
  items_of (str "email") email_re t
  ++ (items_of (str "phone") phone_re t
      ++ (items_of (str "address") address_re t
          ++ (items_of (str "aadhaar") aadhaar_re t))).
Proof. unfold items. simpl. now rewrite app_nil_r. Qed.










End MaskFacts.

(* ================================================================= *)
(** ** Stripping and letter case *)

Module StripFacts.
Import TextFacts.

Lemma occurs_trans (a b c : text) : occurs a b -> occurs b c -> occurs a c.
Proof.
  intros (p1 & s1 & ->) (p2 & s2 & ->). exists (p2 ++ p1), (s1 ++ s2).
  now rewrite <- !app_assoc.
Qed.

Lemma lower_app (a b : text) : lower (a ++ b) = lower a ++ lower b.
Proof. apply map_app. Qed.

Lemma occurs_lower (a b : text) : occurs a b -> occurs (lower a) (lower b).
Proof. intros (pre & suf & ->). exists (lower pre), (lower suf). now rewrite !lower_app. Qed.

Lemma lower_upper_char (c : ascii) : lower_char (upper_char c) = lower_char c.
Proof. destruct c as [[] [] [] [] [] [] [] []]; reflexivity. Qed.

Lemma lower_upper (t : text) : lower (upper t) = lower t.
Proof.
  unfold lower, upper. rewrite map_map. apply map_ext, lower_upper_char.
Qed.

Lemma lower_lower_char (c : ascii) : lower_char (lower_char c) = lower_char c.
Proof. destruct c as [[] [] [] [] [] [] [] []]; reflexivity. Qed.

Lemma lower_lower (t : text) : lower (lower t) = lower t.
Proof.
  unfold lower. rewrite map_map. apply map_ext, lower_lower_char.
Qed.

Lemma lstrip_nonspace (x y : text) (c : ascii) :
  is_space c = false -> lstrip (x ++ c :: y) = lstrip x ++ c :: y.
Proof.
  intros Hc. induction x as [|d x IH]; simpl.
  - now rewrite Hc.
  - destruct (is_space d); [exact IH | reflexivity].
Qed.





Lemma lstrip_idem (s : text) : lstrip (lstrip s) = lstrip s.
Proof.
  induction s as [|c s IH]; simpl; [reflexivity|].
  destruct (is_space c) eqn:E; [exact IH|]. simpl. now rewrite E.
Qed.

Lemma lstrip_head (s : text) :
  lstrip s = [] \/ exists c u, lstrip s = c :: u /\ is_space c = false.
Proof.
  induction s as [|c s IH]; simpl; [now left|].
  destruct (is_space c) eqn:E; [exact IH|]. right. now exists c, s.
Qed.

(** Stripping a stripped text changes nothing. *)
Lemma strip_idem (s : text) : strip (strip s) = strip s.
Proof.
  unfold strip. destruct (lstrip_head s) as [H | (c & u & H & Hc)]; rewrite H.
  - reflexivity.
  - assert (Hr : rstrip (c :: u) = c :: rev (lstrip (rev u))).
    { unfold rstrip. simpl. rewrite (lstrip_nonspace _ _ _ Hc).
      rewrite rev_app_distr. reflexivity. }
    rewrite Hr. simpl. rewrite Hc.
    unfold rstrip. simpl. rewrite rev_involutive.
    rewrite (lstrip_nonspace _ _ _ Hc), lstrip_idem.
    rewrite rev_app_distr. reflexivity.
Qed.

End StripFacts.

(* ================================================================= *)
(** ** The two checks on any text *)

Module ScreeningFacts.
Import Regex Guardrails Spec MaskSpec Screening.
Import TextFacts StripFacts GuardrailFacts SafetyFacts RegexFacts ReplaceFacts.
Import MaskFacts.

Lemma input_safe_iff (m : Metrics) (t : text) :
  is_safe (snd (validate_input m t)) = true <-> clean t.
Proof.
  destruct (clean_or_blocked t) as [Hclean | [c Hc]].
  - rewrite (validate_input_clean m t Hclean). simpl. tauto.
  - rewrite (validate_input_blocked m t c Hc). simpl. split; [discriminate|].
    intros Hclean. destruct (Hclean c (proj1 Hc)).
Qed.

Lemma input_blocked_iff (m : Metrics) (t : text) :
  is_safe (snd (validate_input m t)) = false <-> exists c, mentions t c.
Proof.
  destruct (clean_or_blocked t) as [Hclean | [c Hc]].
  - rewrite (validate_input_clean m t Hclean). simpl. split; [discriminate|].
    intros [c Hc]. destruct (Hclean c Hc).
  - rewrite (validate_input_blocked m t c Hc). simpl. split; [|reflexivity].
    intros _. exists c. apply Hc.
Qed.

Lemma mentions_embedded (t t' : text) (c : category) :
  occurs t t' -> mentions t c -> mentions t' c.
Proof.
  intros Ho (term & Hin & Hterm). exists term. split; [exact Hin|].
  exact (occurs_trans _ _ _ Hterm (occurs_lower _ _ Ho)).
Qed.

(** X1.  A text that the input check blocks is blocked wherever it is embedded:
    what is written before or after it cannot make the check pass. *)
Theorem blocked_text_stays_blocked (m m' : Metrics) (t t' : text) :
  occurs t t' ->
  is_safe (snd (validate_input m t)) = false ->
  is_safe (snd (validate_input m' t')) = false.
Proof.
  intros Ho Hb. apply input_blocked_iff in Hb. destruct Hb as [c Hc].
  apply input_blocked_iff. exists c. exact (mentions_embedded t t' c Ho Hc).
Qed.

Lemma blocked_text_stays_blocked_witness :
  let t := str "a gun" in
  let t' := str "Please, what is a gun? It is for my homework." in
  occurs t t' /\
  is_safe (snd (validate_input initial_metrics t)) = false /\
  is_safe (snd (validate_input initial_metrics t')) = false.
Proof.
  intros t t'.
  assert (Ho : occurs t t') by (apply contains_iff; vm_compute; reflexivity).
  assert (Hb : is_safe (snd (validate_input initial_metrics t)) = false)
    by (vm_compute; reflexivity).
  split; [exact Ho|]. split; [exact Hb|].
  exact (blocked_text_stays_blocked initial_metrics initial_metrics _ _ Ho Hb).
Defined.

Lemma questions_are_blocked :
  Forall (fun question => is_blocked question = true /\ lower question = question)
    inappropriate_questions.
Proof. repeat constructor. Qed.

(** X2.  The questions of [inappropriate_questions], which no check reads, are
    blocked all the same: a text that contains one of them, in any letter
    case, holds a keyword of a category and does not pass the input check. *)
Theorem inappropriate_questions_are_blocked (m : Metrics) (t question : text) :
  In question inappropriate_questions ->
  occurs question (lower t) ->
  is_safe (snd (validate_input m t)) = false.
Proof.
  intros Hin Ho.
  pose proof questions_are_blocked as Hq. rewrite Forall_forall in Hq.
  destruct (Hq question Hin) as [Hb Hl].
  apply is_blocked_iff in Hb. destruct Hb as (c & term & Hterm & Hot).
  rewrite Hl in Hot.
  apply input_blocked_iff. exists c, term. split; [exact Hterm|].
  exact (occurs_trans _ _ _ Hot Ho).
Qed.

Lemma inappropriate_questions_are_blocked_witness :
  let t := str "Where to buy DRUGS near school" in
  In (str "where to buy drugs") inappropriate_questions /\
  occurs (str "where to buy drugs") (lower t) /\
  is_safe (snd (validate_input initial_metrics t)) = false.
Proof.
  intros t.
  assert (Hin : In (str "where to buy drugs") inappropriate_questions)
    by (simpl; tauto).
  assert (Ho : occurs (str "where to buy drugs") (lower t))
    by (apply contains_iff; vm_compute; reflexivity).
  split; [exact Hin|]. split; [exact Ho|].
  exact (inappropriate_questions_are_blocked initial_metrics t _ Hin Ho).
Defined.

(** The verdict of the input check depends on the lower-case text only. *)
Lemma verdict_by_lower (m : Metrics) (t t' : text) :
  lower t = lower t' ->
  is_safe (snd (validate_input m t')) = is_safe (snd (validate_input m t)) /\
  blocked_category (snd (validate_input m t'))
    = blocked_category (snd (validate_input m t)) /\
  reason (snd (validate_input m t')) = reason (snd (validate_input m t)).
Proof.
  intros Hl. rewrite !validate_input_unfold. cbv zeta.
  assert (Hc : forall c, checks t' c = checks t c)
    by (intros c; unfold checks; now rewrite Hl).
  rewrite !Hc.
  repeat match goal with
    | |- context [if ?b then _ else _] => destruct b; [repeat split; reflexivity|]
    end.
  repeat split; reflexivity.
Qed.

(** X3.  The input check does not look at the letter case: for a text of ASCII
    characters, the text in capitals and the text in small letters get the
    verdict of the text itself, with the same category and the same
    reason. *)
Theorem input_check_ignores_case (m : Metrics) (t : text) :
  ascii_text t ->
  forall t', t' = upper t \/ t' = lower t ->
    is_safe (snd (validate_input m t')) = is_safe (snd (validate_input m t)) /\
    blocked_category (snd (validate_input m t'))
      = blocked_category (snd (validate_input m t)) /\
    reason (snd (validate_input m t')) = reason (snd (validate_input m t)).
Proof.
  intros _ t' [-> | ->]; apply verdict_by_lower.
  - symmetry. apply lower_upper.
  - symmetry. apply lower_lower.
Qed.

Lemma input_check_ignores_case_witness :
  let t := str "Where can I buy Beer?" in
  ascii_text t /\
  upper t = str "WHERE CAN I BUY BEER?" /\
  blocked_category (snd (validate_input initial_metrics t)) = str "drugs" /\
  blocked_category (snd (validate_input initial_metrics (upper t))) = str "drugs".
Proof.
  intros t.
  assert (Ha : ascii_text t) by reflexivity.
  destruct (input_check_ignores_case initial_metrics t Ha (upper t)
              (or_introl eq_refl)) as (_ & Hcat & _).
  split; [exact Ha|]. split; [reflexivity|]. split; [reflexivity|].
  rewrite Hcat. reflexivity.
Defined.

(** [validate_output] as a search through its four categories. *)
Lemma validate_output_unfold (m : Metrics) (t : text) :
  validate_output m t =
  let m1 := add_to total_output_checks 1 m in
  let verdict c := mkGuardrailResult false (output_message c) [] (category_name c) in
  if checks t sexual then (m1, verdict sexual)
  else if checks t violence then (m1, verdict violence)
  else if checks t drugs then (m1, verdict drugs)
  else if checks t bullying then (m1, verdict bullying)
  else (m1, mkGuardrailResult true (str "✅ Output is safe") (fst (_mask_pii t)) []).
Proof.
  unfold validate_output, checks, _check_keywords. simpl terms. cbv zeta.
  repeat match goal with
    | |- (if ?b then _ else _) = (if ?b then _ else _) =>
        destruct b; [reflexivity|]
    end.
  reflexivity.
Qed.

(** A reply that passes the output check mentions none of its categories
    and comes back masked. *)
Lemma output_safe (m : Metrics) (t : text) :
  is_safe (snd (validate_output m t)) = true ->
  (forall c, In c output_categories -> ~ mentions t c) /\
  sanitized_text (snd (validate_output m t)) = fst (_mask_pii t).
Proof.
  rewrite validate_output_unfold. cbv zeta.
  destruct (checks t sexual) eqn:E1; [intros Hx; discriminate Hx|].
  destruct (checks t violence) eqn:E2; [intros Hx; discriminate Hx|].
  destruct (checks t drugs) eqn:E3; [intros Hx; discriminate Hx|].
  destruct (checks t bullying) eqn:E4; [intros Hx; discriminate Hx|].
  intros _. split; [|reflexivity]. intros c Hin. apply checks_false.
  simpl in Hin. destruct Hin as [<- | [<- | [<- | [<- | []]]]]; assumption.
Qed.



(** X5.  A text that passes the input check passes the output check, with the
    same sanitized text. *)
Theorem input_safe_is_output_safe (m m' : Metrics) (t : text) :
  is_safe (snd (validate_input m t)) = true ->
  is_safe (snd (validate_output m' t)) = true /\
  sanitized_text (snd (validate_output m' t))
    = sanitized_text (snd (validate_input m t)).
Proof.
  intros Hs. apply input_safe_iff in Hs.
  rewrite (validate_input_clean m t Hs), validate_output_unfold. cbv zeta.
  rewrite !(proj2 (checks_false t _)) by apply Hs. split; reflexivity.
Qed.

Lemma input_safe_is_output_safe_witness :
  let t := str "Mail me at tree@school.org about the poem" in
  is_safe (snd (validate_input initial_metrics t)) = true /\
  is_safe (snd (validate_output initial_metrics t)) = true /\
  sanitized_text (snd (validate_output initial_metrics t))
    = str "Mail me at [EMAIL_PROTECTED] about the poem".
Proof.
  intros t.
  assert (Hs : is_safe (snd (validate_input initial_metrics t)) = true)
    by (vm_compute; reflexivity).
  destruct (input_safe_is_output_safe initial_metrics initial_metrics t Hs)
    as [Ho Ht].
  split; [exact Hs|]. split; [exact Ho|]. rewrite Ht. vm_compute. reflexivity.
Defined.

(** A pattern whose matches have a digit or an at sign finds nothing in a
    text that has neither. *)
Lemma no_mark_no_match (p : pattern) (t : text) :
  pattern_ok p = true ->
  (forall c, In c t -> key_char c = false) ->
  finditer p t = [].
Proof.
  intros Hok Hno. destruct (finditer p t) as [|value rest] eqn:E; [reflexivity|].
  destruct (finditer_marked p t value Hok) as [(_ & _ & c & Hin & Hk) Ho].
  { rewrite E. now left. }
  destruct Ho as (pre & suf & ->).
  rewrite Hno in Hk; [discriminate|].
  apply in_or_app. right. apply in_or_app. now left.
Qed.

(** X6.  The masking leaves alone a text of ASCII characters that has no digit
    and no at sign: the text comes back as it is and no item is
    detected. *)
Theorem text_without_marks_is_not_masked (t : text) :
  ascii_text t ->
  (forall c, In c t -> is_digit c = false /\ c <> "@"%char) ->
  _mask_pii t = (t, []).
Proof.
  intros _ Hno.
  assert (Hk : forall c, In c t -> key_char c = false).
  { intros c Hin. destruct (Hno c Hin) as [Hd Hat]. unfold key_char.
    rewrite Hd. simpl. apply not_true_is_false. intros He.
    apply ascii_eqb_eq in He. contradiction. }
  rewrite mask_pii_fold, items_pii. unfold items_of.
  rewrite !no_mark_no_match by (reflexivity || exact Hk). reflexivity.
Qed.

Lemma text_without_marks_is_not_masked_witness :
  let t := str "What does the word generous mean?" in
  ascii_text t /\ _mask_pii t = (t, []).
Proof.
  intros t.
  assert (Ha : ascii_text t) by reflexivity.
  split; [exact Ha|].
  apply (text_without_marks_is_not_masked t Ha).
  intros c Hin.
  repeat (destruct Hin as [<- | Hin]; [split; [reflexivity | discriminate]|]).
  destruct Hin.
Defined.



Lemma patched_head (new s out : text) :
  bracketed new -> Patched new s out ->
  forall q, ~ In "["%char q -> (exists x, out = q ++ x) -> exists y, s = q ++ y.
Proof.
  intros [body Hb]. induction 1 as [| seg rest out H IH | c s out H IH];
    intros q Hq [x Hx].
  - destruct q; [now exists [] | discriminate].
  - destruct q as [|d q]; [now eexists|].
    rewrite Hb in Hx. injection Hx as Hd _. destruct Hq. now left.
  - destruct q as [|d q]; [now eexists|].
    injection Hx as -> Hx.
    destruct (IH q) as [y ->]; [intros Hin; apply Hq; now right | eauto |].
    now exists y.
Qed.

(** A text without bracket that is in no placeholder and occurs in a
    patched text occurred in the text before. *)
Lemma patched_occurs (new s out k : text) :
  bracketed new -> plain k -> ~ occurs k new ->
  Patched new s out -> occurs k out -> occurs k s.
Proof.
  intros Hb [Hopen Hclose] Hnew H.
  induction H as [| seg rest out H IH | c s out H IH]; intros Ho.
  - exact Ho.
  - apply occurs_app_inv in Ho.
    destruct Ho as [Ho | [Ho | (k1 & k2 & -> & Hne1 & _ & [pre Hpre] & _)]].
    + contradiction.
    + apply occurs_app_r. now apply IH.
    + destruct Hb as [body Hbody]. rewrite Hbody in Hpre.
      change ("["%char :: body ++ ["]"%char])
        with (("["%char :: body) ++ ["]"%char]) in Hpre.
      apply last_in_suffix in Hpre; [|exact Hne1].
      destruct Hclose. apply in_or_app. now left.
  - apply occurs_cons_inv in Ho. destruct Ho as [Ho|Ho].
    + apply startswith_iff in Ho. destruct Ho as [x Hx].
      destruct k as [|d q]; [exists [], (c :: s); reflexivity|].
      injection Hx as -> Hx.
      destruct (patched_head new s out Hb H q) as [y ->];
        [intros Hq; apply Hopen; now right | eauto |].
      exists [], y. reflexivity.
    + apply occurs_cons. now apply IH.
Qed.

Lemma replaced_patched (old new s out : text) :
  Replaced old new s out -> Patched (lower new) (lower s) (lower out).
Proof.
  induction 1 as [| rest out H IH | c s out Hc H IH].
  - constructor.
  - rewrite !lower_app. now constructor.
  - simpl. now constructor.
Qed.

Lemma lower_bracketed (t : text) : bracketed t -> bracketed (lower t).
Proof.
  intros [body ->]. exists (lower body). simpl. now rewrite lower_app.
Qed.

Lemma foreign_spec (k : text) (tp : text * pattern) :
  foreign k = true -> In tp pii_patterns ->
  plain k /\ ~ occurs k (lower (placeholder (fst tp))).
Proof.
  unfold foreign. rewrite !andb_true_iff, !negb_true_iff.
  intros [[Ho Hc] Hall] Hin. split; [split|].
  - intros Hx. apply not_true_iff_false in Ho. apply Ho.
    apply existsb_exists. exists "["%char. split; [exact Hx | reflexivity].
  - intros Hx. apply not_true_iff_false in Hc. apply Hc.
    apply existsb_exists. exists "]"%char. split; [exact Hx | reflexivity].
  - rewrite forallb_forall in Hall. specialize (Hall tp Hin).
    apply negb_true_iff in Hall. intros Hx. apply contains_iff in Hx. congruence.
Qed.

Lemma terms_are_foreign : forallb foreign all_terms = true.
Proof. vm_compute. reflexivity. Qed.

(** A foreign term in the masked text was in the text. *)
Lemma masked_occurs (k : text) :
  foreign k = true ->
  forall found s,
    (forall item, In item found ->
       sound_item item /\ exists p, In (fst item, p) pii_patterns) ->
    occurs k (lower (fold_left mask_step found s)) -> occurs k (lower s).
Proof.
  intros Hk. induction found as [|a found IH]; intros s Hall Ho; [exact Ho|].
  simpl in Ho. apply IH in Ho; [|intros item Hin; apply Hall; now right].
  destruct (Hall a (or_introl eq_refl)) as [Ha [p Hp]].
  destruct (foreign_spec k (fst a, p) Hk Hp) as [Hplain Hnot].
  refine (patched_occurs _ _ _ k _ Hplain Hnot
            (replaced_patched _ _ _ _ (step_Replaced s a Ha)) Ho).
  apply lower_bracketed. exact (proj1 (proj2 Ha)).
Qed.

(** A category that the masked text mentions was mentioned by the text. *)
Lemma masked_mentions (t : text) (c : category) :
  mentions (fst (_mask_pii t)) c -> mentions t c.
Proof.
  intros (term & Hin & Ho). exists term. split; [exact Hin|].
  rewrite mask_pii_fold in Ho. cbn [fst] in Ho.
  refine (masked_occurs term _ _ t _ Ho).
  - pose proof terms_are_foreign as Hall. rewrite forallb_forall in Hall.
    apply Hall. unfold all_terms. apply in_flat_map. exists c.
    split; [destruct c; simpl; tauto | exact Hin].
  - intros item Hitem. split; [exact (proj1 (items_sound t item Hitem))|].
    apply in_items in Hitem. destruct Hitem as (p & Hp & _). now exists p.
Qed.

(** X8.  The masking brings no blocked term into a text: a category that the
    masked text mentions was mentioned by the text.  So the sanitized text
    of a safe verdict passes the input check again. *)
Theorem masking_adds_no_blocked_term (m m' : Metrics) (t : text) :
  (forall c, mentions (fst (_mask_pii t)) c -> mentions t c) /\
  (is_safe (snd (validate_input m t)) = true ->
   is_safe (snd (validate_input m'
                   (sanitized_text (snd (validate_input m t))))) = true).
Proof.
  split; [intros c; apply masked_mentions|].
  intros Hs. apply input_safe_iff in Hs.
  rewrite (validate_input_clean m t Hs). cbn [snd sanitized_text].
  apply input_safe_iff. intros c Hc. exact (Hs c (masked_mentions t c Hc)).
Qed.

Lemma masking_adds_no_blocked_term_witness :
  let t := str "They fight; call 555-123-4567" in
  let q := str "Who wrote the poem? Write to me: tree@school.org" in
  fst (_mask_pii t) = str "They fight; call [PHONE_PROTECTED]" /\
  mentions (fst (_mask_pii t)) violence /\ mentions t violence /\
  is_safe (snd (validate_input initial_metrics q)) = true /\
  is_safe (snd (validate_input initial_metrics
                  (str "Who wrote the poem? Write to me: [EMAIL_PROTECTED]")))
  = true.
Proof.
  intros t q.
  assert (Hm : mentions (fst (_mask_pii t)) violence)
    by (apply checks_iff; vm_compute; reflexivity).
  assert (Hs : is_safe (snd (validate_input initial_metrics q)) = true)
    by (vm_compute; reflexivity).
  split; [vm_compute; reflexivity|]. split; [exact Hm|].
  split; [exact (proj1 (masking_adds_no_blocked_term initial_metrics
                          initial_metrics t) violence Hm)|].
  split; [exact Hs|].
  exact (proj2 (masking_adds_no_blocked_term initial_metrics initial_metrics q)
           Hs).
Defined.

End ScreeningFacts.

(* ================================================================= *)
(** ** The grading without usable scores *)

Module GradingFacts.
Import Guardrails Interaction Rag Spec Grading.
Import TextFacts StripFacts GradeFacts.







Section WithLibrary.

Variable json_loads : text -> option json.


End WithLibrary.


Lemma dict_get_missing (fields : list (text * jvalue)) (k : text) (d : jvalue) :
  ~ In k (map fst fields) -> dict_get fields k d = d.
Proof.
  induction fields as [|[k' v] fields IH]; intros Hno; simpl; [reflexivity|].
  destruct (text_eq_dec k' k) as [-> | Hne].
  - destruct Hno. now left.
  - apply IH. intros Hin. apply Hno. now right.
Qed.

(** X11.  A parsed reply without the keys of the scores: each missing score
    counts as 0.5, so an object with none of the three keys is graded FAIR
    and asks for correction, and a missing reasoning is the empty string. *)
Theorem missing_scores_count_as_half (fields : list (text * jvalue)) :
  (forall k, In k score_keys -> ~ In k (map fst fields)) ->
  evaluation_of (JObject fields) =
  Returned (mkContextEvaluation (JNum 0.5%float) (JNum 0.5%float)
              (JNum 0.5%float) FAIR true
              (dict_get fields (str "reasoning") (JStr []))) /\
  (~ In (str "reasoning") (map fst fields) ->
   dict_get fields (str "reasoning") (JStr []) = JStr []).
Proof.
  intros Hno. split; [|apply dict_get_missing].
  unfold evaluation_of.
  rewrite !dict_get_missing by (apply Hno; simpl; tauto).
  reflexivity.
Qed.

Lemma missing_scores_count_as_half_witness :
  let fields := [(str "reasoning", JStr (str "I cannot tell"))] in
  (forall k, In k score_keys -> ~ In k (map fst fields)) /\
  exists e,
    evaluation_of (JObject fields) = Returned e /\
    quality_level e = FAIR /\ needs_correction e = true /\
    reasoning e = JStr (str "I cannot tell").
Proof.
  intros fields.
  assert (Hno : forall k, In k score_keys -> ~ In k (map fst fields)).
  { intros k Hk [Hin | []]. simpl in Hin. subst k.
    simpl in Hk. intuition discriminate. }
  split; [exact Hno|].
  destruct (missing_scores_count_as_half fields Hno) as [He _].
  eexists. split; [exact He|]. repeat split; reflexivity.
Defined.





End GradingFacts.

(* ================================================================= *)
(** ** The calls, the answer and the sources of a query *)

Module TraceFacts.
Import Guardrails Interaction Rag Spec Traces.
Import Screening.
Import TextFacts GuardrailFacts RunFacts PathFacts QueryFacts ScreeningFacts.

Lemma output_verdict_eq (m : Metrics) (t : text) :
  snd (validate_output m t) = output_verdict t.
Proof.
  unfold output_verdict, validate_output.
  repeat match goal with
    | |- context [if ?b then _ else _] => destruct b
    end; reflexivity.
Qed.

Lemma retrieved_context (r : outcome (list Document)) :
  snd (retrieved r) = context_of (fst (retrieved r)).
Proof. destruct r as [[|d ds] | e]; reflexivity. Qed.

Lemma retrieved_pair (r : outcome (list Document)) docs context :
  retrieved r = (docs, context) ->
  docs = fst (retrieved r) /\ context = context_of (fst (retrieved r)).
Proof. intros H. rewrite <- retrieved_context, H. split; reflexivity. Qed.

Ltac account_goal :=
  unfold accounted;
  split; [cbn [search_calls filter is_search length]; lia|];
  split; [cbn [llm_calls filter is_invoke length]; lia|];
  split;
  [ unfold ladder_searches; cbn [searches];
    first [ left; reflexivity
          | right; left; reflexivity
          | right; right; left; reflexivity
          | right; right; right; do 2 eexists;
            split; [| reflexivity];
            cbn [In]; repeat (first [left; reflexivity | right]) ]
  | intros ? Hres;
    first [ discriminate Hres
          | injection Hres as <-;
            first [ left; reflexivity
                  | right; eexists;
                    split; [reflexivity|];
                    split; [cbn [answer]; unfold screened;
                            rewrite ?output_verdict_eq; reflexivity|];
                    split; [reflexivity|];
                    split; [reflexivity | discriminate] ] ] ].

Ltac account_leaf Q :=
  repeat match goal with
    | H : retrieved _ = (_, _) |- _ =>
        apply retrieved_pair in H; destruct H as [? ?]
    | H : (_, _) = (_, _) |- _ => injection H as ? ?
    end;
  subst; subst Q; cbv beta;
  first [discriminate | account_goal].

Lemma retrieve_and_answer_accounted json_loads py_str vectorstore w past m1
    safe_query :
  wp w past (retrieve_and_answer json_loads py_str vectorstore safe_query m1)
    (fun tr res => accounted safe_query tr (snd res)).
Proof.
  match goal with |- wp _ _ _ ?q => set (Q := q) end.
  destruct vectorstore; wp_run; account_leaf Q.
Qed.

Lemma fst_retrieved_in (r : outcome (list Document)) (d : Document) :
  In d (fst (retrieved r)) -> exists ds, r = Returned ds /\ In d ds.
Proof.
  destruct r as [[|d0 ds] | e]; simpl; try tauto.
  intros H. exists (d0 :: ds). split; [reflexivity | exact H].
Qed.

Lemma documents_from_in (tr : list Event) : forall docs d,
  In d (documents_from docs tr) ->
  In d docs \/
  exists q k ds, In (EvSearch q k (Returned ds)) tr /\ In d ds.
Proof.
  induction tr as [|ev tr IH]; intros docs d Hin; [now left|].
  assert (Hlater : (exists q k ds, In (EvSearch q k (Returned ds)) tr /\ In d ds) ->
                   exists q k ds,
                     In (EvSearch q k (Returned ds)) (ev :: tr) /\ In d ds).
  { intros (q' & k & ds & Hev & Hd). exists q', k, ds. split; [now right | exact Hd]. }
  destruct ev as [step | q' k r | prompt r]; simpl in Hin.
  - destruct step; apply IH in Hin;
      destruct Hin as [Hin | Hin]; auto; destruct Hin.
  - apply IH in Hin. destruct Hin as [Hin | Hin]; [|auto].
    right. apply fst_retrieved_in in Hin. destruct Hin as (ds & -> & Hd).
    exists q', k, ds. split; [now left | exact Hd].
  - apply IH in Hin. destruct Hin as [Hin | Hin]; auto.
Qed.

Section WithLibrary.

Variable json_loads : text -> option json.
Variable py_str : jvalue -> text.
Variable vectorstore : bool.

(** The run of a clean query is accounted for. *)
Lemma query_accounted w past m q :
  clean q ->
  let r := run_query json_loads py_str vectorstore w past m q in
  accounted (safe_query_of q) (trace_of r) (outcome_of r).
Proof.
  intros Hc r. subst r. rewrite (run_query_clean _ _ _ w past m q Hc).
  apply (retrieve_and_answer_accounted json_loads py_str vectorstore w past).
Qed.

(** X13.  The cost of a query.  Whatever the question and whatever the index and
    the model answer, one call of [query] searches the index at most three
    times and calls the model at most six times. *)
Theorem query_call_bounds w past m q :
  let r := run_query json_loads py_str vectorstore w past m q in
  search_calls (trace_of r) <= 3 /\ llm_calls (trace_of r) <= 6.
Proof.
  intros r. subst r. destruct (clean_or_blocked q) as [Hclean | [c Hc]].
  - destruct (query_accounted w past m q Hclean) as (Hs & Hl & _). auto.
  - rewrite (run_query_blocked _ _ _ w past m q c Hc).
    unfold trace_of, search_calls, llm_calls. simpl. lia.
Qed.

(** X14.  What a query asks of the index: the sanitized question for 4
    documents; then, when the query goes up the ladder, the sanitized
    question followed by the words lesson chapter story poem meaning for 6
    documents; then the stripped reply of the model to the expansion prompt
    for 8 documents; in this order and nothing else.  The question as typed
    is never what is searched for when the masking changed it. *)
Theorem query_searches w past m q :
  let r := run_query json_loads py_str vectorstore w past m q in
  ladder_searches (fst (_mask_pii q)) (trace_of r).
Proof.
  intros r. subst r. destruct (clean_or_blocked q) as [Hclean | [c Hc]].
  - destruct (query_accounted w past m q Hclean) as (_ & _ & Hs & _). exact Hs.
  - rewrite (run_query_blocked _ _ _ w past m q c Hc). now left.
Qed.

(** A response that is not one of the two responses of level FALLBACK. *)
Lemma answered_accounted w past m q resp :
  let r := run_query json_loads py_str vectorstore w past m q in
  outcome_of r = Returned resp ->
  retrieval_level resp <> FALLBACK ->
  exists reply,
    generation_of (trace_of r)
    = Some (generation_prompt (context_of (final_documents (trace_of r)))
              (safe_query_of q),
            Returned reply) /\
    answer resp = screened reply /\
    sources resp
    = nodup text_eq_dec (map page_label (final_documents (trace_of r))) /\
    guardrail_passed resp = true.
Proof.
  intros r Hout Hlevel. subst r.
  destruct (clean_or_blocked q) as [Hclean | [c Hc]].
  - destruct (query_accounted w past m q Hclean) as (_ & _ & _ & Hr).
    destruct (Hr resp Hout) as [-> | (reply & Hg & Ha & Hs & Hp & _)].
    + now destruct Hlevel.
    + exists reply. auto.
  - rewrite (run_query_blocked _ _ _ w past m q c Hc) in Hout.
    injection Hout as <-. now destruct Hlevel.
Qed.

(** X15.  The answer of a query that was answered.  The run ends with the
    generation call, whose prompt is made of the context of the last
    retrieval and of the sanitized question; the answer is the reply of that
    call after the output check: the apology when the check blocks the
    reply, the masked reply otherwise.  A blocked reply does not make
    [guardrail_passed] false. *)
Theorem answer_is_the_screened_reply w past m q resp :
  let r := run_query json_loads py_str vectorstore w past m q in
  outcome_of r = Returned resp ->
  retrieval_level resp <> FALLBACK ->
  exists reply,
    generation_of (trace_of r)
    = Some (generation_prompt (context_of (final_documents (trace_of r)))
              (fst (_mask_pii q)),
            Returned reply) /\
    answer resp
    = (if is_safe (snd (validate_output m reply))
       then fst (_mask_pii reply) else apology) /\
    guardrail_passed resp = true.
Proof.
  intros r Hout Hlevel.
  destruct (answered_accounted w past m q resp Hout Hlevel)
    as (reply & Hg & Ha & _ & Hp).
  exists reply. split; [exact Hg|]. split; [|exact Hp].
  rewrite Ha. unfold screened. rewrite <- (output_verdict_eq m reply).
  destruct (is_safe (snd (validate_output m reply))) eqn:E; [|reflexivity].
  exact (proj2 (output_safe m reply E)).
Qed.

(** X16.  The sources of a query that was answered: each page label of a
    document of the last retrieval, once, and nothing else; and each of
    these documents was returned by a search of the run. *)
Theorem sources_of_an_answer w past m q resp :
  let r := run_query json_loads py_str vectorstore w past m q in
  outcome_of r = Returned resp ->
  retrieval_level resp <> FALLBACK ->
  NoDup (sources resp) /\
  (forall s,
     In s (sources resp) <->
     exists d, In d (final_documents (trace_of r)) /\ s = page_label d) /\
  (forall d,
     In d (final_documents (trace_of r)) ->
     exists asked k ds,
       In (EvSearch asked k (Returned ds)) (trace_of r) /\ In d ds).
Proof.
  intros r Hout Hlevel.
  destruct (answered_accounted w past m q resp Hout Hlevel)
    as (reply & _ & _ & Hs & _).
  rewrite Hs. split; [apply NoDup_nodup|]. split.
  - intros s. rewrite nodup_In, in_map_iff. split.
    + intros (d & <- & Hd). now exists d.
    + intros (d & Hd & ->). now exists d.
  - intros d Hd. apply documents_from_in in Hd.
    destruct Hd as [[] | Hd]. exact Hd.
Qed.

(** X17.  No response with [guardrail_passed = true] mentions, in its answer, a
    term of the four categories of the output check. *)
Theorem passed_answer_is_clean w past m q resp :
  let r := run_query json_loads py_str vectorstore w past m q in
  outcome_of r = Returned resp ->
  guardrail_passed resp = true ->
  forall c, In c output_categories -> ~ mentions (answer resp) c.
Proof.
  intros r Hout Hpassed c Hin. subst r.
  assert (Hfixed : forall t c, In c output_categories ->
            existsb (checks t) output_categories = false -> ~ mentions t c).
  { intros t c' Hc' Hno. apply checks_false.
    destruct (checks t c') eqn:E; [|reflexivity].
    assert (existsb (checks t) output_categories = true)
      by (apply existsb_exists; now exists c').
    congruence. }
  destruct (clean_or_blocked q) as [Hclean | [c0 Hc0]].
  - destruct (query_accounted w past m q Hclean) as (_ & _ & _ & Hr).
    destruct (Hr resp Hout) as [-> | (reply & _ & Ha & _)].
    + apply Hfixed; [exact Hin | vm_compute; reflexivity].
    + rewrite Ha. unfold screened, output_verdict.
      destruct (is_safe (snd (validate_output initial_metrics reply))) eqn:E;
        cbn [negb].
      * destruct (output_safe initial_metrics reply E) as [Hno ->].
        intros Hm. exact (Hno c Hin (masked_mentions reply c Hm)).
      * apply Hfixed; [exact Hin | vm_compute; reflexivity].
  - rewrite (run_query_blocked _ _ _ w past m q c0 Hc0) in Hout.
    injection Hout as <-. discriminate Hpassed.
Qed.

End WithLibrary.

Lemma query_answered_sample :
  let r := run_query Samples.sample_json_loads Samples.sample_py_str true
             Samples.helpful_model [] initial_metrics Samples.story_question in
  outcome_of r
  = Returned (mkRAGResponse (str "It is about a boy and a tree.") EXCELLENT
                PRIMARY [str "Page 1"] false true (confidence_of EXCELLENT)).
Proof. vm_compute. reflexivity. Qed.

Lemma answer_is_the_screened_reply_witness :
  let r := run_query Samples.sample_json_loads Samples.sample_py_str true
             Samples.helpful_model [] initial_metrics Samples.story_question in
  exists resp,
    outcome_of r = Returned resp /\ retrieval_level resp <> FALLBACK /\
    answer resp = str "It is about a boy and a tree." /\
    exists reply,
      generation_of (trace_of r)
      = Some (generation_prompt (context_of (final_documents (trace_of r)))
                (fst (_mask_pii Samples.story_question)),
              Returned reply) /\
      answer resp
      = (if is_safe (snd (validate_output initial_metrics reply))
         then fst (_mask_pii reply) else apology) /\
      guardrail_passed resp = true.
Proof.
  cbv zeta.
  pose proof query_answered_sample as Hout. cbv zeta in Hout.
  assert (Hlevel : retrieval_level
                     (mkRAGResponse (str "It is about a boy and a tree.")
                        EXCELLENT PRIMARY [str "Page 1"] false true
                        (confidence_of EXCELLENT)) <> FALLBACK)
    by discriminate.
  eexists. split; [exact Hout|]. split; [exact Hlevel|].
  split; [reflexivity|].
  exact (answer_is_the_screened_reply Samples.sample_json_loads
           Samples.sample_py_str true Samples.helpful_model []
           initial_metrics Samples.story_question _ Hout Hlevel).
Defined.

Lemma sources_of_an_answer_witness :
  let r := run_query Samples.sample_json_loads Samples.sample_py_str true
             Samples.helpful_model [] initial_metrics Samples.story_question in
  exists resp,
    outcome_of r = Returned resp /\ retrieval_level resp <> FALLBACK /\
    sources resp = [str "Page 1"] /\ NoDup (sources resp) /\
    final_documents (trace_of r) = [Samples.chunk].
Proof.
  cbv zeta.
  pose proof query_answered_sample as Hout. cbv zeta in Hout.
  assert (Hlevel : retrieval_level
                     (mkRAGResponse (str "It is about a boy and a tree.")
                        EXCELLENT PRIMARY [str "Page 1"] false true
                        (confidence_of EXCELLENT)) <> FALLBACK)
    by discriminate.
  destruct (sources_of_an_answer Samples.sample_json_loads
              Samples.sample_py_str true Samples.helpful_model []
              initial_metrics Samples.story_question _ Hout Hlevel)
    as (Hnodup & _ & _).
  eexists. split; [exact Hout|]. split; [exact Hlevel|].
  split; [reflexivity|]. split; [exact Hnodup|]. vm_compute. reflexivity.
Defined.

Lemma passed_answer_is_clean_witness :
  let r := run_query Samples.sample_json_loads Samples.sample_py_str true
             Samples.helpful_model [] initial_metrics Samples.story_question in
  exists resp,
    outcome_of r = Returned resp /\ guardrail_passed resp = true /\
    forall c, In c output_categories -> ~ mentions (answer resp) c.
Proof.
  cbv zeta.
  pose proof query_answered_sample as Hout. cbv zeta in Hout.
  eexists. split; [exact Hout|]. split; [reflexivity|].
  exact (passed_answer_is_clean Samples.sample_json_loads
           Samples.sample_py_str true Samples.helpful_model []
           initial_metrics Samples.story_question _ Hout eq_refl).
Defined.

End TraceFacts.

(* ================================================================= *)
(** ** What the loading stores *)

Module LoadFacts.
Import Interaction Rag Loading.
Import TextFacts StripFacts.

Lemma length_zero (s : text) : (length s =? 0) = false <-> s <> [].
Proof. destruct s; simpl; split; congruence. Qed.

Lemma blank_false (s : text) : blank s = false <-> strip s <> [].
Proof.
  unfold blank. rewrite orb_false_iff, !length_zero. split; [tauto|].
  intros H. split; [|exact H]. intros ->. now apply H.
Qed.

Lemma blank_true (s : text) : strip s = [] -> blank s = true.
Proof.
  intros H. destruct (blank s) eqn:E; [reflexivity|].
  apply blank_false in E. contradiction.
Qed.

Lemma in_enumerate {A : Type} (l : list A) (i : nat) (x : A) :
  In (i, x) (enumerate l) -> nth_error l i = Some x /\ i < length l.
Proof.
  unfold enumerate. intros Hin.
  assert (Hgen : forall (l : list A) start,
            In (i, x) (combine (seq start (length l)) l) ->
            start <= i /\ nth_error l (i - start) = Some x /\
            i < start + length l).
  { clear. induction l as [|a l IH]; intros start Hin; [destruct Hin|].
    simpl in Hin. destruct Hin as [[= <- <-] | Hin].
    - rewrite Nat.sub_diag. simpl. repeat split; lia.
    - destruct (IH (S start) Hin) as (Hle & Hn & Hlt).
      replace (i - start) with (S (i - S start)) by lia.
      simpl. repeat split; [lia | exact Hn | lia]. }
  destruct (Hgen l 0 Hin) as (_ & Hn & Hlt).
  rewrite Nat.sub_0_r in Hn. split; [exact Hn | lia].
Qed.

Section WithLibrary.

Variable Index : Type.
Variable load : text -> outcome (list text).
Variable split_text : text -> outcome (list text).
Variable from_documents : list Chunk -> outcome Index.

(** The chunks of a page are stripped, not blank, and carry the number of
    the page. *)
Lemma page_chunks_spec pdf_path i page_content c :
  In c (page_chunks split_text pdf_path i page_content) ->
  strip page_content <> [] /\
  chunk_content c <> [] /\
  strip (chunk_content c) = chunk_content c /\
  chunk_source c = pdf_path /\
  chunk_section c = None /\
  chunk_page c = Some (i + 1).
Proof.
  unfold page_chunks. destruct (blank page_content) eqn:Hb; [intros []|].
  apply blank_false in Hb. intros Hin. split; [exact Hb|].
  apply in_flat_map in Hin. destruct Hin as ([j chunk] & _ & Hin).
  cbn [fst snd] in Hin. destruct (blank chunk) eqn:Hc; [destruct Hin|].
  apply blank_false in Hc. destruct Hin as [<- | []]. simpl.
  split; [exact Hc|]. split; [apply strip_idem|]. auto.
Qed.

(** All the chunks of the pages of a file. *)
Lemma all_chunks_spec pdf_path pages c :
  In c (flat_map (fun ip => page_chunks split_text pdf_path (fst ip) (snd ip))
          (enumerate pages)) ->
  pdf_chunk pdf_path pages c.
Proof.
  intros Hin. apply in_flat_map in Hin.
  destruct Hin as ([i page_content] & Hip & Hin). cbn [fst snd] in Hin.
  apply in_enumerate in Hip. destruct Hip as [Hnth Hlt].
  destruct (page_chunks_spec _ _ _ _ Hin) as (Hp & Hc & Hs & Hsrc & Hsec & Hpage).
  unfold pdf_chunk. repeat (split; [assumption|]).
  exists (i + 1), page_content. split; [exact Hpage|]. split; [lia|].
  split; [|exact Hp]. now replace (i + 1 - 1) with i by lia.
Qed.


(** X19.  The documents that [load_pdf] stores.  When it replaces the stored
    documents, each new one is a stripped piece of text that is not blank,
    with the path of the file as its source and, as its page, the number,
    from 1, of a page of the file that is not blank. *)
Theorem load_pdf_documents (pdf_path : text) (self : System Index)
    (pages : list text) :
  load pdf_path = Returned pages ->
  let after := fst (load_pdf load split_text from_documents pdf_path self) in
  documents after = documents self \/
  Forall (pdf_chunk pdf_path pages) (documents after).
Proof.
  intros Hload. cbv zeta. unfold load_pdf. rewrite Hload.
  destruct (length pages =? 0); [now left|].
  set (all_chunks := flat_map _ _).
  assert (Hall : Forall (pdf_chunk pdf_path pages) all_chunks).
  { apply Forall_forall. intros c Hc. now apply all_chunks_spec. }
  destruct (length all_chunks =? 0); [now left|].
  destruct (from_documents all_chunks); right; exact Hall.
Qed.

(** X20.  A file that cannot be read, or that has no page with text, is not
    loaded: [load_pdf] returns 0 and leaves the system as it was, without
    calling the embedding. *)
Theorem load_pdf_without_text (pdf_path : text) (self : System Index) :
  match load pdf_path with
  | Raised _ => True
  | Returned pages => forall page_content, In page_content pages ->
                        strip page_content = []
  end ->
  load_pdf load split_text from_documents pdf_path self = (self, 0).
Proof.
  unfold load_pdf. destruct (load pdf_path) as [pages | e]; [|reflexivity].
  intros Hblank. destruct (length pages =? 0); [reflexivity|].
  assert (Hnone : flat_map
                    (fun ip => page_chunks split_text pdf_path (fst ip) (snd ip))
                    (enumerate pages) = []).
  { unfold enumerate. generalize 0.
    induction pages as [|page_content pages IH]; intros start; [reflexivity|].
    simpl. unfold page_chunks at 1.
    rewrite blank_true by (apply Hblank; now left).
    apply IH. intros p Hp. apply Hblank. now right. }
  rewrite Hnone. reflexivity.
Qed.

(** X21.  A load replaces the textbook.  What [load_pdf] returns does not depend
    on what was loaded before, and after a load that returns a positive
    count neither do the stored documents nor the index: nothing of the
    documents of before is kept. *)
Theorem load_pdf_replaces_the_documents (pdf_path : text)
    (self other : System Index) :
  snd (load_pdf load split_text from_documents pdf_path self)
  = snd (load_pdf load split_text from_documents pdf_path other) /\
  (0 < snd (load_pdf load split_text from_documents pdf_path self) ->
   fst (load_pdf load split_text from_documents pdf_path self)
   = fst (load_pdf load split_text from_documents pdf_path other)).
Proof.
  unfold load_pdf.
  destruct (load pdf_path) as [pages | e]; [|simpl; split; [reflexivity | lia]].
  destruct (length pages =? 0); [simpl; split; [reflexivity | lia]|].
  set (all_chunks := flat_map _ _).
  destruct (length all_chunks =? 0); [simpl; split; [reflexivity | lia]|].
  destruct (from_documents all_chunks); simpl; split;
    try reflexivity; lia.
Qed.

Lemma text_chunks_spec source_name : forall texts i all_chunks,
  text_chunks split_text source_name i texts = Returned all_chunks ->
  (forall c, In c all_chunks ->
     chunk_source c = source_name /\ chunk_page c = None /\
     exists n, chunk_section c = Some n /\ i + 1 <= n <= i + length texts) /\
  exists pieces,
    Forall2 (fun t chunks => split_text t = Returned chunks) texts pieces /\
    map chunk_content all_chunks = concat pieces.
Proof.
  induction texts as [|t texts IH]; intros i all_chunks; simpl.
  - intros [= <-]. split; [intros c []|]. exists []. split; constructor.
  - destruct (split_text t) as [chunks | e] eqn:Hsplit; [|discriminate].
    destruct (text_chunks split_text source_name (S i) texts) as [more | e]
      eqn:Hmore; [|discriminate].
    intros [= <-]. destruct (IH (S i) more Hmore) as [Hin [pieces [Hp Hc]]].
    split.
    + intros c Hc'. apply in_app_or in Hc'. destruct Hc' as [Hc' | Hc'].
      * apply in_map_iff in Hc'. destruct Hc' as ([j chunk] & <- & _). simpl.
        split; [reflexivity|]. split; [reflexivity|].
        exists (i + 1). split; [reflexivity | lia].
      * destruct (Hin c Hc') as (Hs & Hpg & n & Hn & Hr).
        split; [exact Hs|]. split; [exact Hpg|]. exists n. split; [exact Hn | lia].
    + exists (chunks :: pieces). split; [now constructor|].
      rewrite map_app, Hc. simpl. f_equal.
      rewrite map_map. cbn [chunk_content]. unfold enumerate.
      clear. generalize 0. induction chunks as [|x chunks IHc]; intros start;
        [reflexivity|]. simpl. f_equal. apply IHc.
Qed.


End WithLibrary.


Lemma load_pdf_replaces_the_documents_witness :
  let before := mkSystem [LoadSamples.text_sample] (Some tt) in
  let loaded := load_pdf LoadSamples.two_pages LoadSamples.whole_text
                  LoadSamples.built (str "book.pdf") before in
  0 < snd loaded /\
  fst loaded = mkSystem [LoadSamples.pdf_sample] (Some tt).
Proof.
  cbv zeta.
  assert (Hpos : 0 < snd (load_pdf LoadSamples.two_pages LoadSamples.whole_text
                            LoadSamples.built (str "book.pdf")
                            (mkSystem [LoadSamples.text_sample] (Some tt))))
    by (simpl; lia).
  split; [exact Hpos|].
  rewrite (proj2 (load_pdf_replaces_the_documents unit LoadSamples.two_pages
                    LoadSamples.whole_text LoadSamples.built (str "book.pdf")
                    (mkSystem [LoadSamples.text_sample] (Some tt))
                    LoadSamples.empty_system) Hpos).
  reflexivity.
Defined.

Lemma load_pdf_documents_witness :
  let pages := [str "  A young boy loved a tree. "; str "   "] in
  let after := fst (load_pdf LoadSamples.two_pages LoadSamples.whole_text
                      LoadSamples.built (str "book.pdf")
                      LoadSamples.empty_system) in
  LoadSamples.two_pages (str "book.pdf") = Returned pages /\
  documents after <> documents LoadSamples.empty_system /\
  Forall (pdf_chunk (str "book.pdf") pages) (documents after).
Proof.
  cbv zeta.
  assert (Hload : LoadSamples.two_pages (str "book.pdf")
                  = Returned [str "  A young boy loved a tree. "; str "   "])
    by reflexivity.
  split; [exact Hload|]. split; [discriminate|].
  destruct (load_pdf_documents unit LoadSamples.two_pages
              LoadSamples.whole_text LoadSamples.built (str "book.pdf")
              LoadSamples.empty_system _ Hload) as [H | H];
    [discriminate H | exact H].
Defined.

Lemma load_pdf_without_text_witness :
  load_pdf (fun _ => Returned [str "   "; str ""]) LoadSamples.whole_text
    LoadSamples.built (str "scan.pdf") LoadSamples.empty_system
  = (LoadSamples.empty_system, 0).
Proof.
  apply (load_pdf_without_text unit (fun _ => Returned [str "   "; str ""])).
  intros page_content [<- | [<- | []]]; reflexivity.
Defined.

End LoadFacts.

(* ================================================================= *)
(** ** What an answer cites *)

Module CitationFacts.
Import Guardrails Interaction Rag Spec Traces Loading.
Import TextFacts GuardrailFacts QueryFacts TraceFacts LoadFacts.

Lemma nodup_one {A : Type} (l : list A) (x : A) :
  NoDup l -> (forall y, In y l -> y = x) -> l = [] \/ l = [x].
Proof.
  intros Hnd Hall. destruct l as [|a l]; [now left|]. right.
  assert (a = x) by (apply Hall; now left). subst a.
  destruct l as [|b l]; [reflexivity|].
  assert (b = x) by (apply Hall; right; now left). subst b.
  inversion Hnd as [|? ? Hnot _]. destruct Hnot. now left.
Qed.

(** A search event of a run holds what the index answered. *)
Lemma run_search_answers {A : Type} w (p : Prog A) : forall past asked k r,
  In (EvSearch asked k r) (fst (run w past p)) ->
  exists before, r = similarity_search w before asked k.
Proof.
  induction p as [a | step p IH | asked' k' next IH | prompt next IH];
    intros past asked k r Hin; simpl in Hin.
  - destruct Hin.
  - destruct (run w (past ++ [EvEnter step]) p) as [tr a] eqn:E.
    simpl in Hin. destruct Hin as [Hin | Hin]; [discriminate|].
    apply (IH (past ++ [EvEnter step])). now rewrite E.
  - destruct (run w _ (next _)) as [tr a] eqn:E.
    simpl in Hin. destruct Hin as [[= <- <- <-] | Hin]; [now exists past|].
    eapply IH. rewrite E. exact Hin.
  - destruct (run w _ (next _)) as [tr a] eqn:E.
    simpl in Hin. destruct Hin as [Hin | Hin]; [discriminate|].
    eapply IH. rewrite E. exact Hin.
Qed.

Section WithLibrary.

Variable json_loads : text -> option json.
Variable py_str : jvalue -> text.

(** The sources of an answer are page labels of documents that the searches
    of the run returned. *)
Lemma source_is_found w past m q resp :
  let r := run_query json_loads py_str true w past m q in
  outcome_of r = Returned resp ->
  retrieval_level resp <> FALLBACK ->
  NoDup (sources resp) /\
  forall s, In s (sources resp) ->
    exists asked k ds d,
      In (EvSearch asked k (Returned ds)) (trace_of r) /\ In d ds /\
      s = page_label d.
Proof.
  intros r Hout Hlevel.
  destruct (answered_accounted json_loads py_str true w past m q resp Hout
              Hlevel) as (reply & _ & _ & Hs & _).
  rewrite Hs. split; [apply NoDup_nodup|].
  intros s Hin. rewrite nodup_In, in_map_iff in Hin.
  destruct Hin as (d & <- & Hd). apply documents_from_in in Hd.
  destruct Hd as [Hd | (asked & k & ds & Hev & Hds)]; [destruct Hd|].
  exists asked, k, ds, d. repeat split; assumption.
Qed.

Variable Index : Type.
Variable load : text -> outcome (list text).
Variable split_text : text -> outcome (list text).
Variable from_documents : list Chunk -> outcome Index.

(** The documents that a successful [load_text_documents] stores. *)
Lemma loaded_text_chunks texts source_name (self after : System Index) count :
  load_text_documents split_text from_documents texts source_name self
  = (after, Returned count) ->
  Forall (text_chunk source_name texts) (documents after).
Proof.
  unfold load_text_documents.
  destruct (text_chunks split_text source_name 0 texts) as [all_chunks | e]
    eqn:Hchunks; [|discriminate].
  destruct (text_chunks_spec split_text source_name texts 0 all_chunks Hchunks)
    as [Hin _].
  destruct (from_documents all_chunks); [|discriminate].
  intros [= <- _]. simpl. apply Forall_forall. intros c Hc.
  destruct (Hin c Hc) as (Hs & Hp & n & Hn & Hr).
  split; [exact Hs|]. split; [exact Hp|]. exists n. split; [exact Hn | lia].
Qed.

(** The documents that a successful [load_pdf] stores. *)
Lemma loaded_pdf_chunks pdf_path pages (self after : System Index) count :
  load pdf_path = Returned pages ->
  load_pdf load split_text from_documents pdf_path self = (after, count) ->
  0 < count ->
  Forall (pdf_chunk pdf_path pages) (documents after).
Proof.
  intros Hload. unfold load_pdf. rewrite Hload.
  destruct (length pages =? 0); [intros [= _ <-]; lia|].
  set (all_chunks := flat_map _ _).
  assert (Hall : Forall (pdf_chunk pdf_path pages) all_chunks).
  { apply Forall_forall. intros c Hc.
    now apply (all_chunks_spec split_text). }
  destruct (length all_chunks =? 0); [intros [= _ <-]; lia|].
  destruct (from_documents all_chunks); intros [= <- <-]; [|lia].
  intros _. exact Hall.
Qed.

(** X23.  Texts loaded with [load_text_documents], as the sample data of the
    application are, have no page: when the index returns stored documents
    only, an answer cites nothing or the one source Page ?. *)
Theorem text_documents_cite_no_page texts source_name (self after : System Index)
    count w past m q resp :
  load_text_documents split_text from_documents texts source_name self
  = (after, Returned count) ->
  let r := run_query json_loads py_str true w past m q in
  (forall asked k ds d,
     In (EvSearch asked k (Returned ds)) (trace_of r) -> In d ds ->
     exists c, In c (documents after) /\ d = document_of c) ->
  outcome_of r = Returned resp ->
  retrieval_level resp <> FALLBACK ->
  sources resp = [] \/ sources resp = [str "Page ?"].
Proof.
  intros Hloaded r Hstored Hout Hlevel.
  pose proof (loaded_text_chunks _ _ _ _ _ Hloaded) as Hchunks.
  rewrite Forall_forall in Hchunks.
  destruct (source_is_found w past m q resp Hout Hlevel) as [Hnodup Hfound].
  apply nodup_one; [exact Hnodup|].
  intros s Hs. destruct (Hfound s Hs) as (asked & k & ds & d & Hev & Hd & ->).
  destruct (Hstored asked k ds d Hev Hd) as (c & Hc & ->).
  destruct (Hchunks c Hc) as (_ & Hpage & _).
  unfold page_label, document_of. cbn [page]. now rewrite Hpage.
Qed.

(** X24.  A file loaded with [load_pdf]: when the index returns stored documents
    only, each source of an answer is the label of a page of the file, by
    its number from 1, and that page is not blank. *)
Theorem pdf_documents_cite_their_pages pdf_path pages (self after : System Index)
    count w past m q resp :
  load pdf_path = Returned pages ->
  load_pdf load split_text from_documents pdf_path self = (after, count) ->
  0 < count ->
  let r := run_query json_loads py_str true w past m q in
  (forall asked k ds d,
     In (EvSearch asked k (Returned ds)) (trace_of r) -> In d ds ->
     exists c, In c (documents after) /\ d = document_of c) ->
  outcome_of r = Returned resp ->
  retrieval_level resp <> FALLBACK ->
  forall s, In s (sources resp) ->
    exists p page_content,
      s = str "Page " ++ str (NilEmpty.string_of_uint (Nat.to_uint p)) /\
      1 <= p <= length pages /\
      nth_error pages (p - 1) = Some page_content /\
      strip page_content <> [].
Proof.
  intros Hload Hloaded Hcount r Hstored Hout Hlevel s Hs.
  pose proof (loaded_pdf_chunks _ _ _ _ _ Hload Hloaded Hcount) as Hchunks.
  rewrite Forall_forall in Hchunks.
  destruct (source_is_found w past m q resp Hout Hlevel) as [_ Hfound].
  destruct (Hfound s Hs) as (asked & k & ds & d & Hev & Hd & ->).
  destruct (Hstored asked k ds d Hev Hd) as (c & Hc & ->).
  destruct (Hchunks c Hc) as (_ & _ & _ & _ & p & page_content & Hp & Hr & Hn & Hb).
  exists p, page_content. split; [|auto].
  unfold page_label, document_of. cbn [page]. now rewrite Hp.
Qed.

End WithLibrary.

(** The searches of a run in the world of one chunk find that chunk. *)
Lemma index_of_finds (c : Chunk) past m q asked k ds d :
  In (EvSearch asked k (Returned ds))
    (trace_of (run_query Samples.sample_json_loads Samples.sample_py_str true
                 (LoadSamples.index_of c) past m q)) ->
  In d ds -> d = document_of c.
Proof.
  unfold run_query, trace_of. intros Hev Hd.
  apply run_search_answers in Hev. destruct Hev as [before Heq].
  simpl in Heq. injection Heq as ->. destruct Hd as [<- | []]. reflexivity.
Qed.

Lemma text_documents_cite_no_page_witness :
  let loaded := load_text_documents LoadSamples.whole_text LoadSamples.built
                  [str "A young boy loved a tree."] (str "Sample")
                  LoadSamples.empty_system in
  let r := run_query Samples.sample_json_loads Samples.sample_py_str true
             (LoadSamples.index_of LoadSamples.text_sample) []
             initial_metrics Samples.story_question in
  loaded = (mkSystem [LoadSamples.text_sample] (Some tt), Returned 1) /\
  exists resp,
    outcome_of r = Returned resp /\ retrieval_level resp = PRIMARY /\
    sources resp = [str "Page ?"].
Proof.
  cbv zeta.
  assert (Hloaded : load_text_documents LoadSamples.whole_text LoadSamples.built
                      [str "A young boy loved a tree."] (str "Sample")
                      LoadSamples.empty_system
                    = (mkSystem [LoadSamples.text_sample] (Some tt), Returned 1))
    by reflexivity.
  split; [exact Hloaded|].
  set (resp := mkRAGResponse (str "It is about a boy and a tree.") EXCELLENT
                 PRIMARY [str "Page ?"] false true (confidence_of EXCELLENT)).
  assert (Hout : outcome_of
                   (run_query Samples.sample_json_loads Samples.sample_py_str
                      true (LoadSamples.index_of LoadSamples.text_sample) []
                      initial_metrics Samples.story_question)
                 = Returned resp) by (vm_compute; reflexivity).
  assert (Hlevel : retrieval_level resp <> FALLBACK) by discriminate.
  exists resp. split; [exact Hout|]. split; [reflexivity|].
  destruct (text_documents_cite_no_page Samples.sample_json_loads
              Samples.sample_py_str unit LoadSamples.whole_text
              LoadSamples.built _ _ _ _ _
              (LoadSamples.index_of LoadSamples.text_sample) []
              initial_metrics Samples.story_question resp Hloaded)
    as [Hnone | Hone]; try assumption.
  - intros asked k ds d Hev Hd. exists LoadSamples.text_sample.
    split; [left; reflexivity|].
    exact (index_of_finds LoadSamples.text_sample [] initial_metrics
             Samples.story_question asked k ds d Hev Hd).
  - discriminate Hnone.
Defined.

Lemma pdf_documents_cite_their_pages_witness :
  let pages := [str "  A young boy loved a tree. "; str "   "] in
  let loaded := load_pdf LoadSamples.two_pages LoadSamples.whole_text
                  LoadSamples.built (str "book.pdf") LoadSamples.empty_system in
  let r := run_query Samples.sample_json_loads Samples.sample_py_str true
             (LoadSamples.index_of LoadSamples.pdf_sample) []
             initial_metrics Samples.story_question in
  loaded = (mkSystem [LoadSamples.pdf_sample] (Some tt), 1) /\
  exists resp,
    outcome_of r = Returned resp /\ sources resp = [str "Page 1"] /\
    forall s, In s (sources resp) ->
      exists p page_content,
        s = str "Page " ++ str (NilEmpty.string_of_uint (Nat.to_uint p)) /\
        1 <= p <= length pages /\
        nth_error pages (p - 1) = Some page_content /\
        strip page_content <> [].
Proof.
  cbv zeta.
  assert (Hloaded : load_pdf LoadSamples.two_pages LoadSamples.whole_text
                      LoadSamples.built (str "book.pdf")
                      LoadSamples.empty_system
                    = (mkSystem [LoadSamples.pdf_sample] (Some tt), 1))
    by reflexivity.
  split; [exact Hloaded|].
  set (resp := mkRAGResponse (str "It is about a boy and a tree.") EXCELLENT
                 PRIMARY [str "Page 1"] false true (confidence_of EXCELLENT)).
  assert (Hout : outcome_of
                   (run_query Samples.sample_json_loads Samples.sample_py_str
                      true (LoadSamples.index_of LoadSamples.pdf_sample) []
                      initial_metrics Samples.story_question)
                 = Returned resp) by (vm_compute; reflexivity).
  exists resp. split; [exact Hout|]. split; [reflexivity|].
  apply (pdf_documents_cite_their_pages Samples.sample_json_loads
           Samples.sample_py_str unit LoadSamples.two_pages
           LoadSamples.whole_text LoadSamples.built (str "book.pdf") _
           LoadSamples.empty_system _ 1
           (LoadSamples.index_of LoadSamples.pdf_sample) []
           initial_metrics Samples.story_question resp eq_refl Hloaded).
  - lia.
  - intros asked k ds d Hev Hd. exists LoadSamples.pdf_sample.
    split; [left; reflexivity|].
    exact (index_of_finds LoadSamples.pdf_sample [] initial_metrics
             Samples.story_question asked k ds d Hev Hd).
  - exact Hout.
  - discriminate.
Defined.

End CitationFacts.

(* ================================================================= *)
(** ** The numbers of the sidebar *)

Module AppFacts.
Import Guardrails Interaction Rag Spec App.
Import GuardrailFacts PathFacts QueryFacts SafetyFacts.



End AppFacts.
